(** * DIFF-CPP: a shallow embedding of the diff synthesis code

    The development follows the headers of the library one by one:
    [buffer.h], [ascii.h], [diff.h], [commonprefix.h], [commonsuffix.h],
    [commonoverlap.h], [commonhalf.h], [halfmatch.h], [limits.h],
    [deadline.h] and [patch.h].

    A byte range is a [list byte]; sizes that index a range are [nat],
    and integers whose width matters ([int], [ssize_t], [clock_t]) are
    [Z] with the wrap-around written out (LP64: 32-bit [int], 64-bit
    [long], [size_t], [clock_t] and [time_t]).  Code that can leave the
    defined part of C++ (erasing an invalid iterator range, stepping
    past [end()]) or that can loop lives in the [outcome] monad.

    Objects are their values.  A buffer is the bytes it spans and its
    [_allocated] flag, or the buffer without a block, whose pointer is
    null; where the bytes live is not modelled, so a view and a copy of
    the same bytes differ in the flag only, and a reference reads the
    value its object had when it was bound. *)

From Stdlib Require Import List ZArith Lia Bool Arith QArith.
From Stdlib Require Strings.String.
From Stdlib Require Import Strings.Byte.
Import ListNotations.
Import String.StringSyntax.
Delimit Scope string_scope with string.
Bind Scope string_scope with String.string.

Local Open Scope nat_scope.

(** ** Outcomes of a run *)

Inductive outcome (A : Type) : Type :=
| Done (a : A)     (* the call returns [a] *)
| Undefined        (* the call leaves the behaviour C++ defines *)
| OutOfFuel.       (* the step budget is used up before the call returns *)

Arguments Done {A} a.
Arguments Undefined {A}.
Arguments OutOfFuel {A}.

Definition bind {A B : Type} (m : outcome A) (k : A -> outcome B) : outcome B :=
  match m with
  | Done a => k a
  | Undefined => Undefined
  | OutOfFuel => OutOfFuel
  end.

Notation "x <- m ;; k" := (bind m (fun x => k))
  (at level 61, m at next level, right associativity).
Notation "' p <- m ;; k" := (bind m (fun p => k))
  (at level 61, p pattern, m at next level, right associativity).

(** [while fuel cond body s] runs [while (cond) body] from state [s].
    A [continue] in the source is a body that hands the state back. *)
Fixpoint while {S : Type} (fuel : nat) (cond : S -> bool)
         (body : S -> outcome S) (s : S) : outcome S :=
  if cond s then
    match fuel with
    | O => OutOfFuel
    | S fuel' => s' <- body s ;; while fuel' cond body s'
    end
  else Done s.

(** ** Machine integers *)

Definition wrap_signed (bits : Z) (z : Z) : Z :=
  (z + 2 ^ (bits - 1)) mod 2 ^ bits - 2 ^ (bits - 1).

Definition wrap_unsigned (bits : Z) (z : Z) : Z := z mod 2 ^ bits.

(** [int] has 32 bits, [size_t], [ssize_t], [clock_t] and [time_t] 64. *)
Definition to_int (z : Z) : Z := wrap_signed 32 z.
Definition to_size_t (z : Z) : Z := wrap_unsigned 64 z.
Definition to_long (z : Z) : Z := wrap_signed 64 z.
Definition INT_MAX : Z := 2 ^ 31 - 1.
Definition LONG_MAX : Z := 2 ^ 63 - 1.

(** ** Bytes and the libc routines the buffers call *)

Definition bytes_of (s : String.string) : list byte := String.list_byte_of_string s.

Definition byte_ltb (a b : byte) : bool := (Byte.to_N a <? Byte.to_N b)%N.

(** [memcmp a b n]: the sign of the first difference among the first [n]
    bytes.  Every caller below passes an [n] within both ranges. *)
Fixpoint memcmp (a b : list byte) (n : nat) : Z :=
  match n with
  | O => 0%Z
  | S n' =>
      match a, b with
      | x :: a', y :: b' =>
          if byte_ltb x y then (-1)%Z
          else if byte_ltb y x then 1%Z
          else memcmp a' b' n'
      | _, _ => 0%Z
      end
  end.

Fixpoint starts_with (needle hay : list byte) : bool :=
  match needle, hay with
  | [], _ => true
  | _ :: _, [] => false
  | x :: needle', y :: hay' => Byte.eqb x y && starts_with needle' hay'
  end.

(** [memmem hay needle]: offset of the first occurrence of [needle] in
    the bytes [hay] behind a haystack pointer that is not null.  An
    empty needle is found at offset 0: the haystack pointer is handed
    back. *)
Fixpoint memmem (hay needle : list byte) : option nat :=
  if starts_with needle hay then Some 0
  else match hay with
       | [] => None
       | _ :: hay' => option_map S (memmem hay' needle)
       end.

(** ** buffer.h *)

Module Buffer.

(** [mk data allocated] is a buffer whose [_data] points at the bytes
    [data] ([_size] is their number); [null] is the buffer whose [_data]
    is the null pointer, with no bytes and not allocated, as [Buffer()]
    and [clear()] leave it.  A block that [malloc] or [realloc] hands
    out is taken to have an address, also a block of no bytes. *)
Inductive t : Type :=
| mk (data : list byte) (allocated : bool)
| null.

Definition _data (b : t) : list byte :=
  match b with mk data _ => data | null => [] end.
Definition _allocated (b : t) : bool :=
  match b with mk _ allocated => allocated | null => false end.

(** [Buffer()] *)
Definition empty : t := null.

(** [Buffer(data, size, deepcopy)]: [data] stands for the [size] bytes
    behind the pointer, which is not null. *)
Definition make (data : list byte) (deepcopy : bool) : t := mk data deepcopy.

(** [Buffer(that, deepcopy)] and the copy constructor: a view of the
    null buffer has the null pointer too, a deep copy has its own
    block. *)
Definition copy_as (that : t) (deepcopy : bool) : t :=
  match that with
  | mk data _ => make data deepcopy
  | null => if deepcopy then make [] true else null
  end.
Definition copy (that : t) : t := copy_as that (_allocated that).

(** The move constructor takes the three fields over.  It leaves the
    other object without bytes and not allocated, and does not touch
    its pointer. *)
Definition move (that : t) : t := that.
Definition moved_from (that : t) : t :=
  match that with mk _ _ => mk [] false | null => null end.

(** [Buffer(size, begin, end)]: the ranges of a run of buffers, joined
    in a block of [size] bytes; for [size = 0] there is no block and
    [_data] is the null pointer.  Every caller passes the sum of the
    sizes. *)
Definition join (size : nat) (run : list t) : t :=
  if 0 <? size then mk (concat (map _data run)) true else null.

Definition data (b : t) : list byte := _data b.
Definition bytes (b : t) : nat := length (_data b).

Definition append_data (b : t) (data : list byte) : t := mk (_data b ++ data) true.
Definition append (b that : t) : t := append_data b (_data that).

Definition prepend_data (b : t) (data : list byte) : t := mk (data ++ _data b) true.
Definition prepend (b that : t) : t := prepend_data b (_data that).

(** [assign(data, size, deepcopy)]: in each of the four branches the
    buffer ends up holding [data], allocated exactly when [deepcopy]. *)
Definition assign_data (b : t) (data : list byte) (deepcopy : bool) : t :=
  if _allocated b then
    if deepcopy then mk data true else mk data false
  else
    if deepcopy then mk data true else mk data (_allocated b).
(** [assign(that, deepcopy)] passes [that._data] on: without a copy
    the null pointer of [that] becomes the pointer of this buffer. *)
Definition assign_as (b that : t) (deepcopy : bool) : t :=
  match that with
  | mk data _ => assign_data b data deepcopy
  | null => if deepcopy then assign_data b [] true else null
  end.
Definition assign (b that : t) : t := assign_as b that (_allocated that).

Definition clear (b : t) : t := null.

Definition shrink (b : t) (size : nat) : t :=
  if bytes b <=? size then clear b
  else if size =? 0 then b
  else mk (firstn (bytes b - size) (_data b)) (_allocated b).

Definition skip (b : t) (size : nat) : t :=
  if bytes b <=? size then clear b
  else if size =? 0 then b
  else mk (skipn size (_data b)) true.

(** [compare(start, size, that)].  The pointer [_data + start] and the
    length [_size - start] only make sense for [start <= _size]. *)
Definition compare_at (b : t) (start size : nat) (that : t) : outcome Z :=
  let size := if bytes that <? size then bytes that else size in
  if bytes b <? start then Undefined
  else Done (memcmp (skipn start (_data b)) (_data that) (Nat.min size (bytes b - start))).

(** [compare(that)]: the tail of the function returns the [size_t]
    difference through an [int]. *)
Definition compare (b that : t) : Z :=
  let result := memcmp (_data b) (_data that) (Nat.min (bytes b) (bytes that)) in
  if negb (result =? 0)%Z || (bytes b =? bytes that) then result
  else to_int (to_size_t (Z.of_nat (bytes b) - Z.of_nat (bytes that))).

(** [find(that)].  On the null buffer [memmem] returns the null
    pointer whatever the needle is, also for an empty one, where it
    hands the haystack pointer back: the answer is -1. *)
Definition find (b that : t) : Z :=
  match b with
  | null => (-1)%Z
  | mk data _ =>
      match memmem data (_data that) with
      | None => (-1)%Z
      | Some k => Z.of_nat k
      end
  end.

(** [find(that, pos)]: [_size - pos] wraps for [pos > _size] and the
    search would then run outside the buffer. *)
Definition find_from (b that : t) (pos : nat) : outcome Z :=
  if bytes b <? pos then Undefined
  else match b with
       | null => Done (-1)%Z
       | mk data _ =>
           match memmem (skipn pos data) (_data that) with
           | None => Done (-1)%Z
           | Some k => Done (Z.of_nat (pos + k))
           end
       end.

Definition eqb (b that : t) : bool := (compare b that =? 0)%Z.
Definition neqb (b that : t) : bool := negb (compare b that =? 0)%Z.

(** [part(start)] *)
Definition part (b : t) (start : nat) : t :=
  if bytes b <=? start then empty
  else make (skipn start (_data b)) (_allocated b).

(** [part(start, size)] *)
Definition part_size (b : t) (start size : nat) : t :=
  if (bytes b <=? start) || (size =? 0) then empty
  else make (firstn (Nat.min (bytes b - start) size) (skipn start (_data b)))
            (_allocated b).

End Buffer.

(** ** ascii.h *)

Module Ascii.

(** An [Ascii] wraps one [Buffer]; a character is a byte. *)
Definition t : Type := Buffer.t.

(** [Ascii()] wraps the buffer [Buffer()] builds. *)
Definition default : t := Buffer.empty.

(** [Ascii(buffer, size)] wraps the caller's bytes without copying. *)
Definition make (buffer : list byte) : t := Buffer.make buffer false.

(** [Ascii(b.data(), b.bytes())]: the same constructor on the pointer
    of a buffer, which may be the null pointer. *)
Definition over (b : Buffer.t) : t := Buffer.copy_as b false.
Definition of_string (s : String.string) : t := make (bytes_of s).

Definition buffer (a : t) : Buffer.t := a.
Definition buffer_from (a : t) (start : nat) : Buffer.t := Buffer.part a start.
Definition buffer_part (a : t) (start size : nat) : Buffer.t := Buffer.part_size a start size.

Definition bytes (a : t) : nat := Buffer.bytes a.
Definition characters (a : t) : nat := Buffer.bytes a.

Definition find (a that : t) : Z := Buffer.find a that.
Definition find_from (a that : t) (index : nat) : outcome Z := Buffer.find_from a that index.

Definition compare (a that : t) : Z := Buffer.compare a that.
Definition eqb (a that : t) : bool := (compare a that =? 0)%Z.
Definition neqb (a that : t) : bool := negb (compare a that =? 0)%Z.

Definition substr (a : t) (start size : nat) : t := Buffer.move (Buffer.part_size a start size).
Definition substr_from (a : t) (start : nat) : t := Buffer.move (Buffer.part a start).

(** [begin()] walks the bytes front to back, [rbegin()] back to front. *)
Definition begin_ (a : t) : list byte := Buffer.data a.
Definition rbegin (a : t) : list byte := rev (Buffer.data a).

End Ascii.

(** ** operation.h *)

Inductive Operation : Type := INSERT | DELETE | EQUAL.

Definition Operation_eqb (a b : Operation) : bool :=
  match a, b with
  | INSERT, INSERT | DELETE, DELETE | EQUAL, EQUAL => true
  | _, _ => false
  end.

(** ** diff.h *)

Module Diff.

(** A [Diff] is a [Buffer] with an operation. *)
Record t : Type := mk { operation : Operation; buffer : Buffer.t }.

(** [Diff(operation)], [Diff(operation, const Buffer &)],
    [Diff(operation, Buffer &&)], [Diff(operation, size, begin, end)] *)
Definition make_empty (op : Operation) : t := mk op Buffer.empty.
Definition make (op : Operation) (b : Buffer.t) : t := mk op (Buffer.copy b).
Definition make_move (op : Operation) (b : Buffer.t) : t := mk op (Buffer.move b).
Definition make_join (op : Operation) (size : nat) (run : list t) : t :=
  mk op (Buffer.join size (map buffer run)).

Definition data (d : t) : list byte := Buffer.data (buffer d).
Definition bytes (d : t) : nat := Buffer.bytes (buffer d).

(** The [Buffer] members a [Diff] inherits, acting on its range. *)
Definition on_buffer (f : Buffer.t -> Buffer.t) (d : t) : t := mk (operation d) (f (buffer d)).
Definition append (d that : t) : t := on_buffer (fun b => Buffer.append b (buffer that)) d.
Definition prepend (d that : t) : t := on_buffer (fun b => Buffer.prepend b (buffer that)) d.
Definition assign (d : t) (that : t) : t := on_buffer (fun b => Buffer.assign b (buffer that)) d.
Definition shrink (d : t) (size : nat) : t := on_buffer (fun b => Buffer.shrink b size) d.
Definition skip (d : t) (size : nat) : t := on_buffer (fun b => Buffer.skip b size) d.
Definition clear (d : t) : t := on_buffer Buffer.clear d.
Definition compare_at (d : t) (start size : nat) (that : t) : outcome Z :=
  Buffer.compare_at (buffer d) start size (buffer that).

Definition part (d : t) (start : nat) : t :=
  make_move (operation d) (Buffer.move (Buffer.part (buffer d) start)).
Definition part_size (d : t) (start size : nat) : t :=
  make_move (operation d) (Buffer.move (Buffer.part_size (buffer d) start size)).

End Diff.

(** ** commonprefix.h *)

(** The scan both affix finders run: at most [maxsize] rounds, leaving
    at the first pair of characters that differ. *)
Fixpoint affix_scan (maxsize : nat) (iter1 iter2 : list byte) (_size : nat) : nat :=
  match maxsize with
  | O => _size
  | S maxsize' =>
      match iter1, iter2 with
      | c1 :: iter1', c2 :: iter2' =>
          if negb (Byte.eqb c1 c2) then _size
          else affix_scan maxsize' iter1' iter2' (S _size)
      | _, _ => _size
      end
  end.

Module CommonPrefix.

Record t : Type := mk { _input : Ascii.t; _size : nat }.

Definition make (input1 input2 : Ascii.t) : t :=
  let maxsize := Nat.min (Ascii.characters input1) (Ascii.characters input2) in
  mk input1 (affix_scan maxsize (Ascii.begin_ input1) (Ascii.begin_ input2) 0).

(** The constructor on raw byte buffers *)
Definition of_diffs (input1 input2 : Diff.t) : t :=
  make (Ascii.over (Diff.buffer input1)) (Ascii.over (Diff.buffer input2)).

Definition text (p : t) : Ascii.t := Ascii.substr (_input p) 0 (_size p).
Definition buffer (p : t) : Buffer.t := Ascii.buffer_part (_input p) 0 (_size p).
Definition characters (p : t) : nat := _size p.
Definition bytes (p : t) : nat := Buffer.bytes (buffer p).
Definition to_bool (p : t) : bool := 0 <? _size p.

End CommonPrefix.

(** ** commonsuffix.h *)

Module CommonSuffix.

Record t : Type := mk { _input : Ascii.t; _size : nat }.

Definition make (input1 input2 : Ascii.t) : t :=
  let maxsize := Nat.min (Ascii.characters input1) (Ascii.characters input2) in
  mk input1 (affix_scan maxsize (Ascii.rbegin input1) (Ascii.rbegin input2) 0).

Definition of_diffs (input1 input2 : Diff.t) : t :=
  make (Ascii.over (Diff.buffer input1)) (Ascii.over (Diff.buffer input2)).

Definition text (s : t) : Ascii.t :=
  Ascii.substr (_input s) (Ascii.characters (_input s) - _size s) (_size s).
Definition buffer (s : t) : Buffer.t :=
  Ascii.buffer_part (_input s) (Ascii.characters (_input s) - _size s) (_size s).
Definition characters (s : t) : nat := _size s.
Definition bytes (s : t) : nat := Buffer.bytes (buffer s).
Definition to_bool (s : t) : bool := 0 <? _size s.

End CommonSuffix.

(** ** commonoverlap.h *)

Module CommonOverlap.

Record t : Type := mk {
  _shorttext : Ascii.t;
  _longtext : Ascii.t;
  _skip : Z;
  _text1long : bool
}.

(** [CommonOverlap(text1, text2)].  The initialisers of [_longtext] and
    [_text1long] compare addresses, [&_shorttext == &text1] and
    [&_longtext == &text1]; [same_object] tells whether [text1] and
    [text2] are one and the same object, which their values do not
    show. *)
Definition construct (same_object : bool) (text1 text2 : Ascii.t) : t :=
  let shorttext_is_text2 := Ascii.characters text2 <? Ascii.characters text1 in
  let shorttext := if shorttext_is_text2 then text2 else text1 in
  let shorttext_at_text1 := negb shorttext_is_text2 || same_object in
  let longtext := if shorttext_at_text1 then text2 else text1 in
  let longtext_at_text1 := negb shorttext_at_text1 || same_object in
  mk shorttext longtext (Ascii.find longtext shorttext) longtext_at_text1.

(** The constructor on two separate objects, as [Patch::overlap] calls
    it: its arguments are the two temporaries [compute] was handed. *)
Definition make (text1 text2 : Ascii.t) : t := construct false text1 text2.

Definition to_bool (o : t) : bool := (0 <=? _skip o)%Z.
Definition not (o : t) : bool := (_skip o <? 0)%Z.

(** [_skip] reaches the [size_t] parameters through a conversion. *)
Definition prefix (o : t) : Buffer.t :=
  Ascii.buffer_part (_longtext o) 0 (Z.to_nat (to_size_t (_skip o))).
Definition suffix (o : t) : Buffer.t :=
  Ascii.buffer_from (_longtext o) (Z.to_nat (to_size_t (_skip o))).
Definition buffer (o : t) : Buffer.t := Ascii.buffer (_shorttext o).
Definition operation (o : t) : Operation := if _text1long o then DELETE else INSERT.

End CommonOverlap.

(** ** commonhalf.h *)

Module CommonHalf.

Record t : Type := mk {
  _longtext : Ascii.t;
  _shorttext : Ascii.t;
  _start : nat;
  _substr : nat;
  _prefix : nat;
  _suffix : nat
}.

Definition characters (h : t) : nat := _prefix h + _suffix h.
Definition valid (h : t) : bool := Ascii.characters (_longtext h) <=? characters h * 2.
Definition to_bool (h : t) : bool := valid h.
Definition not (h : t) : bool := negb (valid h).

Definition set_substr (h : t) (pos : nat) : t :=
  mk (_longtext h) (_shorttext h) (_start h) pos (_prefix h) (_suffix h).

(** The state of the search loop: the object under construction and
    the [int pos] of the last occurrence, or the negative result that
    ends the loop. *)
Definition search_state : Type := (t * Z)%type.

(** One evaluation of [(pos = shorttext.find(seed, pos + 1)) >= 0]
    followed, when it holds, by the loop body.  [pos + 1] overflows
    for [pos = INT_MAX]; the [ssize_t] result is cut down to an [int]. *)
Definition search_step (seed : Ascii.t) (index : nat) (st : search_state)
  : outcome search_state :=
  let '(self, pos) := st in
  if (pos =? INT_MAX)%Z then Undefined
  else
    found <- Ascii.find_from (_shorttext self) seed (Z.to_nat (to_size_t (pos + 1))) ;;
    let pos := to_int found in
    if (0 <=? pos)%Z then
      let at_ := Z.to_nat (to_size_t pos) in
      let prefix := CommonPrefix.make (Ascii.substr_from (_longtext self) index)
                                      (Ascii.substr_from (_shorttext self) at_) in
      let suffix := CommonSuffix.make (Ascii.substr (_longtext self) 0 index)
                                      (Ascii.substr (_shorttext self) 0 at_) in
      if CommonPrefix.characters prefix + CommonSuffix.characters suffix <? characters self
      then Done (self, pos)
      else Done (set_substr self at_, pos)
    else Done (self, pos).

(** The loop leaves when the assignment in its condition yields a
    negative [pos].  The first evaluation starts from [pos = -1]. *)
Fixpoint search (fuel : nat) (seed : Ascii.t) (index : nat) (st : search_state)
  : outcome t :=
  match fuel with
  | O => OutOfFuel
  | S fuel' =>
      st' <- search_step seed index st ;;
      if (0 <=? snd st')%Z then search fuel' seed index st'
      else Done (fst st')
  end.

(** [CommonHalf(longtext, shorttext, index)] *)
Definition make (fuel : nat) (longtext shorttext : Ascii.t) (index : nat) : outcome t :=
  let seed := Ascii.substr longtext index (Ascii.characters longtext / 4) in
  search fuel seed index (mk longtext shorttext index 0 0 0, (-1)%Z).

(** The accessors subtract [_suffix] from an offset.  In every object
    the constructor builds [_suffix] is 0, so the [size_t] differences
    do not wrap. *)
Definition longPrefix (h : t) : Ascii.t :=
  Ascii.substr (_longtext h) 0 (_start h - _suffix h).
Definition longSuffix (h : t) : Ascii.t :=
  Ascii.substr_from (_longtext h) (_start h + _prefix h).
Definition shortPrefix (h : t) : Ascii.t :=
  Ascii.substr (_shorttext h) 0 (_substr h - _suffix h).
Definition shortSuffix (h : t) : Ascii.t :=
  Ascii.substr_from (_shorttext h) (_substr h + _prefix h).
Definition common (h : t) : Ascii.t :=
  Ascii.substr (_shorttext h) (_substr h - _suffix h) (_suffix h + _prefix h).

End CommonHalf.

(** ** halfmatch.h *)

Module HalfMatch.

(** [_winner] points at one of the two members or nowhere. *)
Inductive quarter : Type := Second | Third.

Record t : Type := mk {
  _q2 : CommonHalf.t;
  _q3 : CommonHalf.t;
  _winner : option quarter
}.

(** The body of the constructor, once both members are built *)
Definition pick (q2 q3 : CommonHalf.t) : option quarter :=
  if CommonHalf.to_bool q2 && CommonHalf.to_bool q3 then
    Some (if CommonHalf.characters q3 <? CommonHalf.characters q2 then Second else Third)
  else if CommonHalf.to_bool q2 then Some Second
  else if CommonHalf.to_bool q3 then Some Third
  else None.

Definition make (fuel : nat) (longtext shorttext : Ascii.t) : outcome t :=
  q2 <- CommonHalf.make fuel longtext shorttext ((Ascii.characters longtext + 3) / 4) ;;
  q3 <- CommonHalf.make fuel longtext shorttext ((Ascii.characters longtext + 1) / 2) ;;
  Done (mk q2 q3 (pick q2 q3)).

Definition valid (m : t) : bool :=
  match _winner m with Some _ => true | None => false end.
Definition to_bool (m : t) : bool := valid m.
Definition not (m : t) : bool := negb (valid m).

(** Dereferencing [_winner]; a null pointer has nothing behind it. *)
Definition winner (m : t) : outcome CommonHalf.t :=
  match _winner m with
  | Some Second => Done (_q2 m)
  | Some Third => Done (_q3 m)
  | None => Undefined
  end.

Definition longPrefix (m : t) : outcome Ascii.t := w <- winner m ;; Done (CommonHalf.longPrefix w).
Definition longSuffix (m : t) : outcome Ascii.t := w <- winner m ;; Done (CommonHalf.longSuffix w).
Definition shortPrefix (m : t) : outcome Ascii.t := w <- winner m ;; Done (CommonHalf.shortPrefix w).
Definition shortSuffix (m : t) : outcome Ascii.t := w <- winner m ;; Done (CommonHalf.shortSuffix w).
Definition common (m : t) : outcome Ascii.t := w <- winner m ;; Done (CommonHalf.common w).

End HalfMatch.

(** ** limits.h *)

Definition CLOCKS_PER_SEC : Z := 1000000.

Module Limits.

(** The [float] fields hold the rational they denote. *)
Record t : Type := mk {
  timeout : Q;
  editcost : Z;
  Match_Threshold : Q;
  Match_Distance : Z;
  Patch_DeleteThreshold : Q;
  Patch_Margin : Z;
  Match_MaxBits : Z
}.

Definition default : t := mk 1%Q 4 (1 # 2)%Q 1000 (1 # 2)%Q 4 32.

(** The cast [(clock_t)(x)] drops the fraction. *)
Definition truncate (x : Q) : Z := Z.quot (Qnum x) (Z.pos (Qden x)).

(** [deadline()], with [clock] the reading [clock()] returns *)
Definition deadline (l : t) (clock : Z) : Z :=
  if Qle_bool (timeout l) 0 then LONG_MAX
  else to_long (clock + truncate (timeout l * inject_Z CLOCKS_PER_SEC)).

End Limits.

(** ** deadline.h *)

Module Deadline.

Record t : Type := mk { _start : Z; _max : Z }.

(** [Deadline()] and [Deadline(seconds)], with [clock] the reading of
    [clock()] in the initialiser *)
Definition infinite (clock : Z) : t := mk clock 0.
Definition make (seconds : Z) (clock : Z) : t := mk clock seconds.

Definition to_bool (d : t) : bool := (0 <? _max d)%Z.
Definition not (d : t) : bool := (_max d =? 0)%Z.

Definition expiration (d : t) : Z := to_long (_start d + _max d * CLOCKS_PER_SEC).

(** [reached()], with [now] the reading of [clock()] in its body *)
Definition reached (d : t) (now : Z) : bool :=
  if (_max d =? 0)%Z then false
  else
    let expire := expiration d in
    if (_start d <? expire)%Z then (expire <=? now)%Z || (now <? _start d)%Z
    else (_start d <? now)%Z && (expire <=? now)%Z.

End Deadline.

(** ** The [std::list<Diff>] behind a patch *)

Module StdList.

(** An iterator is the index of its element; [None] is [end()].  The
    code keeps iterators across insertions and erasures, which leave
    them on their elements: the model moves the index along. *)
Definition iterator : Type := option nat.

Definition end_ : iterator := None.

Definition begin_ (l : list Diff.t) : iterator :=
  match l with [] => None | _ :: _ => Some 0 end.

Definition is_end (it : iterator) : bool :=
  match it with None => true | Some _ => false end.

Definition position (l : list Diff.t) (it : iterator) : nat :=
  match it with Some i => i | None => length l end.

Definition at_position (l : list Diff.t) (i : nat) : iterator :=
  if i <? length l then Some i else None.

(** [*it]: [end()] has no element. *)
Definition deref (l : list Diff.t) (it : iterator) : outcome Diff.t :=
  match it with
  | None => Undefined
  | Some i => match nth_error l i with Some d => Done d | None => Undefined end
  end.

(** [++it] and [std::next(it)]: [end()] has no successor. *)
Definition next (l : list Diff.t) (it : iterator) : outcome iterator :=
  match it with
  | None => Undefined
  | Some i => if i <? length l then Done (at_position l (S i)) else Undefined
  end.

(** Writing through [it->...] *)
Definition store (l : list Diff.t) (it : iterator) (d : Diff.t) : outcome (list Diff.t) :=
  match it with
  | None => Undefined
  | Some i => if i <? length l then Done (firstn i l ++ d :: skipn (S i) l) else Undefined
  end.

Definition emplace_back (l : list Diff.t) (d : Diff.t) : list Diff.t := l ++ [d].

(** [emplace(it, ...)] puts the new element in front of [it] and
    returns the iterator to it; [it] then sits one place further. *)
Definition emplace (l : list Diff.t) (it : iterator) (d : Diff.t)
  : list Diff.t * iterator :=
  let i := position l it in
  (firstn i l ++ d :: skipn i l, Some i).

Definition after_emplace (at_ it : iterator) : iterator :=
  match at_, it with
  | Some i, Some j => if i <=? j then Some (S j) else Some j
  | _, _ => it
  end.

(** [erase(it)] returns the iterator behind the erased element. *)
Definition erase (l : list Diff.t) (it : iterator)
  : outcome (list Diff.t * iterator) :=
  match it with
  | None => Undefined
  | Some i =>
      if i <? length l then
        let l' := firstn i l ++ skipn (S i) l in
        Done (l', at_position l' i)
      else Undefined
  end.

Definition after_erase (erased it : iterator) : iterator :=
  match erased, it with
  | Some i, Some j => if i <? j then Some (pred j) else Some j
  | _, _ => it
  end.

(** The elements of [[first, last)] *)
Definition range (l : list Diff.t) (first last : iterator) : list Diff.t :=
  firstn (position l last - position l first) (skipn (position l first) l).

(** [erase(first, last)] asks for [last] to be reachable from [first];
    it returns [last], which now sits where [first] was. *)
Definition erase_range (l : list Diff.t) (first last : iterator)
  : outcome (list Diff.t * iterator) :=
  if position l first <=? position l last then
    let l' := firstn (position l first) l ++ skipn (position l last) l in
    Done (l', at_position l' (position l first))
  else Undefined.

End StdList.

(** ** patch.h *)

Module Patch.

Import StdList.

(** The methods work on the member [_diffs]; each one takes the list
    and hands the new list back. *)
Definition diffs : Type := list Diff.t.

(** *** [overlap] *)
Definition overlap (text1 text2 : Ascii.t) (_diffs : diffs) : diffs * bool :=
  let overlap := CommonOverlap.make text1 text2 in
  if CommonOverlap.to_bool overlap then
    let _diffs := emplace_back _diffs
          (Diff.make_move (CommonOverlap.operation overlap) (CommonOverlap.prefix overlap)) in
    let _diffs := emplace_back _diffs (Diff.make EQUAL (CommonOverlap.buffer overlap)) in
    let _diffs := emplace_back _diffs
          (Diff.make_move (CommonOverlap.operation overlap) (CommonOverlap.suffix overlap)) in
    (_diffs, true)
  else if (Ascii.characters text1 =? 1) || (Ascii.characters text2 =? 1) then
    let _diffs := emplace_back _diffs (Diff.make DELETE (Ascii.buffer text1)) in
    let _diffs := emplace_back _diffs (Diff.make INSERT (Ascii.buffer text2)) in
    (_diffs, true)
  else (_diffs, false).

(** *** [linemode] and [bisect]: both bodies are empty. *)
Definition linemode (text1 text2 : Ascii.t) (deadline : Deadline.t) (_diffs : diffs) : diffs :=
  _diffs.
Definition bisect (text1 text2 : Ascii.t) (deadline : Deadline.t) (_diffs : diffs) : diffs :=
  _diffs.

(** *** [halfmatch]

    [patch] stands for the private constructor, which the method
    calls for the two sides of the common part with its own [limits],
    [checklines] and [deadline]. *)
Definition halfmatch_possible (longtext shorttext : Ascii.t) : bool :=
  negb ((Ascii.characters longtext <? 4)
        || (Ascii.characters shorttext * 2 <? Ascii.characters longtext)).

Definition halfmatch (fuel : nat) (patch : Ascii.t -> Ascii.t -> outcome diffs)
           (text1 text2 : Ascii.t) (_diffs : diffs) : outcome (diffs * bool) :=
  let longtext_is_text1 := Ascii.characters text2 <? Ascii.characters text1 in
  let longtext := if longtext_is_text1 then text1 else text2 in
  let shorttext := if longtext_is_text1 then text2 else text1 in
  if negb (halfmatch_possible longtext shorttext) then Done (_diffs, false)
  else
    result <- HalfMatch.make fuel longtext shorttext ;;
    if HalfMatch.not result then Done (_diffs, false)
    else
      longPrefix <- HalfMatch.longPrefix result ;;
      shortPrefix <- HalfMatch.shortPrefix result ;;
      longSuffix <- HalfMatch.longSuffix result ;;
      shortSuffix <- HalfMatch.shortSuffix result ;;
      common <- HalfMatch.common result ;;
      if longtext_is_text1 then
        part1 <- patch longPrefix shortPrefix ;;
        part2 <- patch longSuffix shortSuffix ;;
        let _diffs := _diffs ++ part1 in
        let _diffs := emplace_back _diffs (Diff.make EQUAL (Ascii.buffer common)) in
        Done (_diffs ++ part2, true)
      else
        part1 <- patch shortPrefix longPrefix ;;
        part2 <- patch shortSuffix longSuffix ;;
        let _diffs := _diffs ++ part1 in
        let _diffs := emplace_back _diffs (Diff.make EQUAL (Ascii.buffer common)) in
        Done (_diffs ++ part2, true).

(** *** [compute] *)
Definition compute (fuel : nat) (patch : Ascii.t -> Ascii.t -> outcome diffs)
           (text1 text2 : Ascii.t) (checklines : bool) (deadline : Deadline.t)
           (_diffs : diffs) : outcome diffs :=
  if Ascii.characters text1 =? 0 then
    Done (emplace_back _diffs (Diff.make INSERT (Ascii.buffer text2)))
  else if Ascii.characters text2 =? 0 then
    Done (emplace_back _diffs (Diff.make DELETE (Ascii.buffer text1)))
  else
    let '(_diffs, done) := overlap text1 text2 _diffs in
    if done then Done _diffs
    else
      '(_diffs, done) <-
        (if Deadline.to_bool deadline then halfmatch fuel patch text1 text2 _diffs
         else Done (_diffs, false)) ;;
      if done then Done _diffs
      else if checklines && (100 <? Ascii.characters text1) && (100 <? Ascii.characters text2)
      then Done (linemode text1 text2 deadline _diffs)
      else Done (bisect text1 text2 deadline _diffs).

(** *** [mergeUpdates] *)
Record merge_state : Type := mk_merge {
  mu_diffs : diffs;
  mu_iter : iterator;
  mu_updates : iterator;
  mergedInsert : Diff.t;
  mergedDelete : Diff.t
}.

(** What a [Diff] holds once it has been moved from *)
Definition moved_from (d : Diff.t) : Diff.t :=
  Diff.mk (Diff.operation d) (Buffer.moved_from (Diff.buffer d)).

(** The [EQUAL] case of the switch, past its first line *)
Definition mergeUpdates_flush (st : merge_state) : outcome merge_state :=
  let _diffs := mu_diffs st in
  let mergedInsert := mergedInsert st in
  let mergedDelete := mergedDelete st in
  '(_diffs, iter) <- erase_range _diffs (mu_updates st) (mu_iter st) ;;
  let updates := end_ in
  let commonprefix := CommonPrefix.of_diffs mergedInsert mergedDelete in
  let '(_diffs, iter, mergedInsert, mergedDelete) :=
    if CommonPrefix.to_bool commonprefix then
      let '(_diffs, placed) :=
        emplace _diffs iter (Diff.make_move EQUAL (CommonPrefix.buffer commonprefix)) in
      (_diffs, after_emplace placed iter,
       Diff.assign mergedInsert (Diff.part mergedInsert (CommonPrefix.bytes commonprefix)),
       Diff.assign mergedDelete (Diff.part mergedDelete (CommonPrefix.bytes commonprefix)))
    else (_diffs, iter, mergedInsert, mergedDelete) in
  let commonsuffix := CommonSuffix.of_diffs mergedInsert mergedDelete in
  let '(_diffs, iter, mergedInsert, mergedDelete) :=
    if CommonSuffix.to_bool commonsuffix then
      let '(_diffs, placed) :=
        emplace _diffs iter (Diff.make_move EQUAL (CommonSuffix.buffer commonsuffix)) in
      (_diffs, placed,
       Diff.shrink mergedInsert (CommonSuffix.bytes commonsuffix),
       Diff.shrink mergedDelete (CommonSuffix.bytes commonsuffix))
    else (_diffs, iter, mergedInsert, mergedDelete) in
  let '(_diffs, iter, mergedDelete) :=
    if 0 <? Diff.bytes mergedDelete then
      let '(_diffs, placed) :=
        emplace _diffs iter (Diff.make_move DELETE (Diff.buffer mergedDelete)) in
      (_diffs, after_emplace placed iter, moved_from mergedDelete)
    else (_diffs, iter, mergedDelete) in
  let '(_diffs, iter, mergedInsert) :=
    if 0 <? Diff.bytes mergedInsert then
      let '(_diffs, placed) :=
        emplace _diffs iter (Diff.make_move INSERT (Diff.buffer mergedInsert)) in
      (_diffs, after_emplace placed iter, moved_from mergedInsert)
    else (_diffs, iter, mergedInsert) in
  Done (mk_merge _diffs iter updates (Diff.clear mergedInsert) (Diff.clear mergedDelete)).

(** The body of the [for] loop, up to the [++iter] *)
Definition mergeUpdates_body (st : merge_state) : outcome merge_state :=
  d <- deref (mu_diffs st) (mu_iter st) ;;
  let updates :=
    if is_end (mu_updates st) && negb (Operation_eqb (Diff.operation d) EQUAL)
    then mu_iter st else mu_updates st in
  let st := mk_merge (mu_diffs st) (mu_iter st) updates (mergedInsert st) (mergedDelete st) in
  match Diff.operation d with
  | INSERT =>
      Done (mk_merge (mu_diffs st) (mu_iter st) updates
                     (Diff.append (mergedInsert st) d) (mergedDelete st))
  | DELETE =>
      Done (mk_merge (mu_diffs st) (mu_iter st) updates
                     (mergedInsert st) (Diff.append (mergedDelete st) d))
  | EQUAL =>
      if negb (is_end updates) then Done st
      else mergeUpdates_flush st
  end.

Definition mergeUpdates_step (st : merge_state) : outcome merge_state :=
  st <- mergeUpdates_body st ;;
  iter <- next (mu_diffs st) (mu_iter st) ;;
  Done (mk_merge (mu_diffs st) iter (mu_updates st) (mergedInsert st) (mergedDelete st)).

Definition mergeUpdates (fuel : nat) (_diffs : diffs) : outcome diffs :=
  st <- while fuel (fun st => negb (is_end (mu_iter st))) mergeUpdates_step
          (mk_merge _diffs (begin_ _diffs) end_
                    (Diff.make_empty INSERT) (Diff.make_empty DELETE)) ;;
  Done (mu_diffs st).

(** *** [mergeEquals] *)
Record equals_state : Type := mk_equals {
  me_diffs : diffs;
  me_iter : iterator;
  me_begin : iterator;
  me_size : nat;
  me_count : nat
}.

(** [emplace(begin, EQUAL, size, begin, last)] followed by
    [erase(begin, last)] *)
Definition mergeEquals_join (_diffs : diffs) (begin last : iterator) (size : nat)
  : outcome (diffs * iterator) :=
  let '(_diffs', placed) :=
    emplace _diffs begin (Diff.make_join EQUAL size (range _diffs begin last)) in
  erase_range _diffs' (after_emplace placed begin) (after_emplace placed last).

Definition mergeEquals_body (st : equals_state) : outcome equals_state :=
  d <- deref (me_diffs st) (me_iter st) ;;
  if Operation_eqb (Diff.operation d) EQUAL then
    let begin := if me_count st =? 0 then me_iter st else me_begin st in
    Done (mk_equals (me_diffs st) (me_iter st) begin
                    (me_size st + Diff.bytes d) (S (me_count st)))
  else if 1 <? me_count st then
    '(_diffs, iter) <- mergeEquals_join (me_diffs st) (me_begin st) (me_iter st) (me_size st) ;;
    Done (mk_equals _diffs iter end_ 0 0)
  else
    Done (mk_equals (me_diffs st) (me_iter st) end_ 0 0).

Definition mergeEquals_step (st : equals_state) : outcome equals_state :=
  st <- mergeEquals_body st ;;
  iter <- next (me_diffs st) (me_iter st) ;;
  Done (mk_equals (me_diffs st) iter (me_begin st) (me_size st) (me_count st)).

Definition mergeEquals (fuel : nat) (_diffs : diffs) : outcome diffs :=
  st <- while fuel (fun st => negb (is_end (me_iter st))) mergeEquals_step
          (mk_equals _diffs (begin_ _diffs) end_ 0 0) ;;
  if me_count st <? 2 then Done (me_diffs st)
  else
    '(_diffs, _) <- mergeEquals_join (me_diffs st) (me_begin st) end_ (me_size st) ;;
    Done _diffs.

(** *** [shift] *)
Record shift_state : Type := mk_shift {
  sh_diffs : diffs;
  prev : iterator;
  current : iterator;
  next_ : iterator;
  changes : nat
}.

(** The last line of the loop: [prev = current; current = next; ++next] *)
Definition shift_advance (_diffs : diffs) (current next_ : iterator) (changes : nat)
  : outcome shift_state :=
  next' <- next _diffs next_ ;;
  Done (mk_shift _diffs current next_ next' changes).

(** [a->bytes() >= b->bytes() && a->compare(start, b->bytes(), *b) == 0] *)
Definition covers (a : Diff.t) (start : nat) (b : Diff.t) : outcome bool :=
  if Diff.bytes b <=? Diff.bytes a then
    r <- Diff.compare_at a start (Diff.bytes b) b ;; Done (r =? 0)%Z
  else Done false.

(** The body of the [while] loop; the three [continue] statements
    leave with the state as it was. *)
Definition shift_body (st : shift_state) : outcome shift_state :=
  let _diffs := sh_diffs st in
  n <- deref _diffs (next_ st) ;;
  if negb (Operation_eqb (Diff.operation n) EQUAL) then Done st
  else
    c <- deref _diffs (current st) ;;
    if Operation_eqb (Diff.operation c) EQUAL then Done st
    else
      p <- deref _diffs (prev st) ;;
      if negb (Operation_eqb (Diff.operation p) EQUAL) then Done st
      else
        left <- covers c (Diff.bytes c - Diff.bytes p) p ;;
        if left then
          let c := Diff.prepend (Diff.shrink c (Diff.bytes p)) p in
          let n := Diff.prepend n p in
          _diffs <- store _diffs (current st) c ;;
          _diffs <- store _diffs (next_ st) n ;;
          '(_diffs, _) <- erase _diffs (prev st) ;;
          shift_advance _diffs (after_erase (prev st) (current st))
                        (after_erase (prev st) (next_ st)) (S (changes st))
        else
          right <- covers c 0 n ;;
          if right then
            let p := Diff.append p n in
            let c := Diff.append (Diff.skip c (Diff.bytes n)) n in
            _diffs <- store _diffs (prev st) p ;;
            _diffs <- store _diffs (current st) c ;;
            '(_diffs, next') <- erase _diffs (next_ st) ;;
            shift_advance _diffs (current st) next' (S (changes st))
          else
            shift_advance _diffs (current st) (next_ st) (changes st).

(** [return changes > 0], a [bool] going out as a [size_t] *)
Definition shift (fuel : nat) (_diffs : diffs) : outcome (diffs * nat) :=
  let prev := begin_ _diffs in
  current <- next _diffs prev ;;
  next' <- next _diffs current ;;
  st <- while fuel (fun st => negb (is_end (next_ st))) shift_body
          (mk_shift _diffs prev current next' 0) ;;
  Done (sh_diffs st, if 0 <? changes st then 1 else 0).

(** *** [optimize]: [do { mergeUpdates(); mergeEquals(); } while (shift() > 0)] *)
Fixpoint optimize (fuel : nat) (_diffs : diffs) : outcome diffs :=
  match fuel with
  | O => OutOfFuel
  | S fuel' =>
      _diffs <- mergeUpdates fuel _diffs ;;
      _diffs <- mergeEquals fuel _diffs ;;
      '(_diffs, changed) <- shift fuel _diffs ;;
      if 0 <? changed then optimize fuel' _diffs else Done _diffs
  end.

(** *** The constructors *)

(** The list the private constructor has built when it calls
    [optimize()] *)
Definition assemble (fuel : nat) (patch : Ascii.t -> Ascii.t -> outcome diffs)
           (input1 input2 : Ascii.t) (checklines : bool) (deadline : Deadline.t)
  : outcome diffs :=
  let prefix := CommonPrefix.make input1 input2 in
  let suffix := CommonSuffix.make
                  (Ascii.substr_from input1 (CommonPrefix.characters prefix))
                  (Ascii.substr_from input2 (CommonPrefix.characters prefix)) in
  let _diffs : diffs := [] in
  let _diffs :=
    if 0 <? CommonPrefix.characters prefix
    then emplace_back _diffs (Diff.make_move EQUAL (CommonPrefix.buffer prefix))
    else _diffs in
  let common := CommonPrefix.characters prefix + CommonSuffix.characters suffix in
  _diffs <- compute fuel patch
              (Ascii.substr input1 (CommonPrefix.characters prefix) common)
              (Ascii.substr input2 (CommonPrefix.characters prefix) common)
              checklines deadline _diffs ;;
  Done (if 0 <? CommonSuffix.characters suffix
        then emplace_back _diffs (Diff.make_move EQUAL (CommonSuffix.buffer suffix))
        else _diffs).

(** [Patch(limits, input1, input2, checklines, deadline)].  A level of
    [fuel] pays for one nesting of the constructor inside [halfmatch]
    and bounds the loops run at that level. *)
Fixpoint make_deadline (fuel : nat) (limits : Limits.t) (input1 input2 : Ascii.t)
         (checklines : bool) (deadline : Deadline.t) : outcome diffs :=
  if Ascii.eqb input1 input2 then
    if Ascii.bytes input1 =? 0 then Done []
    else Done (emplace_back [] (Diff.make EQUAL (Ascii.buffer input1)))
  else
    match fuel with
    | O => OutOfFuel
    | S fuel' =>
        _diffs <- assemble fuel
                    (fun text1 text2 => make_deadline fuel' limits text1 text2 checklines deadline)
                    input1 input2 checklines deadline ;;
        optimize fuel _diffs
    end.

(** [Patch(limits, input1, input2, checklines)]: the [clock_t] that
    [limits.deadline()] returns becomes the [Deadline] through the
    constructor [Deadline(time_t seconds)].  [clock0] and [clock1] are
    the readings of [clock()] in [Limits::deadline] and in that
    constructor. *)
Definition make (fuel : nat) (limits : Limits.t) (input1 input2 : Ascii.t)
           (checklines : bool) (clock0 clock1 : Z) : outcome diffs :=
  make_deadline fuel limits input1 input2 checklines
                (Deadline.make (Limits.deadline limits clock0) clock1).

End Patch.

(** ** What the specification asks of a patch

    These definitions follow the words of the specification, to be set
    against the code above. *)

Module Specified.

(** A [Diff] as the specification sees it: an operation and a span *)
Definition span (d : Diff.t) : Operation * list byte := (Diff.operation d, Diff.data d).
Definition spans (ds : list Diff.t) : list (Operation * list byte) := map span ds.

Definition concat_without (op : Operation) (ds : list Diff.t) : list byte :=
  concat (map Diff.data
              (filter (fun d => negb (Operation_eqb (Diff.operation d) op)) ds)).

(** I1 and I2: the spans that are not DELETE give text2, those that
    are not INSERT give text1. *)
Definition reconstructs (text1 text2 : list byte) (ds : list Diff.t) : Prop :=
  concat_without DELETE ds = text2 /\ concat_without INSERT ds = text1.

(** I3: two neighbours never share their operation. *)
Fixpoint adjacent_same (ds : list Diff.t) : bool :=
  match ds with
  | d1 :: (d2 :: _) as rest =>
      Operation_eqb (Diff.operation d1) (Diff.operation d2) || adjacent_same rest
  | _ => false
  end.

(** The overlap short-circuit for the shorter text found at offset [k] *)
Definition overlap_diffs (op : Operation) (longtext shorttext : list byte) (k : nat)
  : list (Operation * list byte) :=
  [(op, firstn k longtext); (EQUAL, shorttext); (op, skipn (k + length shorttext) longtext)].

Fixpoint common_prefix (a b : list byte) : list byte :=
  match a, b with
  | x :: a', y :: b' => if Byte.eqb x y then x :: common_prefix a' b' else []
  | _, _ => []
  end.

Definition common_suffix (a b : list byte) : list byte :=
  rev (common_prefix (rev a) (rev b)).

(** The offsets at which [seed] occurs in [text], counted from [from] *)
Fixpoint occurrences (seed text : list byte) (from : nat) : list nat :=
  (if starts_with seed text then [from] else [])
  ++ match text with
     | [] => []
     | _ :: text' => occurrences seed text' (S from)
     end.

(** The matched length around an occurrence of the seed at [pos]: the
    common prefix behind it plus the common suffix in front of it *)
Definition matched_around (longtext shorttext : list byte) (index pos : nat) : nat :=
  length (common_prefix (skipn index longtext) (skipn pos shorttext))
  + length (common_suffix (firstn index longtext) (firstn pos shorttext)).

(** The largest matched length over all occurrences of the quarter
    length seed *)
Definition best_matched (longtext shorttext : list byte) (index : nat) : nat :=
  let seed := firstn (length longtext / 4) (skipn index longtext) in
  fold_right Nat.max 0
             (map (matched_around longtext shorttext index)
                  (occurrences seed shorttext 0)).

Definition half_valid (longtext shorttext : list byte) (index : nat) : bool :=
  length longtext <=? 2 * best_matched longtext shorttext index.

(** What a run of edits with merged buffers [ins] and [del] is
    replaced by *)
Definition emit (op : Operation) (content : list byte) : list (Operation * list byte) :=
  match content with [] => [] | _ :: _ => [(op, content)] end.

Definition merged_run (ins del : list byte) : list (Operation * list byte) :=
  let p := common_prefix ins del in
  let ins := skipn (length p) ins in
  let del := skipn (length p) del in
  let s := common_suffix ins del in
  let ins := firstn (length ins - length s) ins in
  let del := firstn (length del - length s) del in
  emit EQUAL p ++ emit DELETE del ++ emit INSERT ins ++ emit EQUAL s.

(** The mergeUpdates pass over a list of spans; [run] tells whether
    edits have been gathered since the last EQUAL. *)
Fixpoint merge_updates (ds : list (Operation * list byte)) (ins del : list byte)
         (run : bool) : list (Operation * list byte) :=
  match ds with
  | [] => if run then merged_run ins del else []
  | (INSERT, x) :: ds' => merge_updates ds' (ins ++ x) del true
  | (DELETE, x) :: ds' => merge_updates ds' ins (del ++ x) true
  | (EQUAL, x) :: ds' =>
      (if run then merged_run ins del else []) ++ (EQUAL, x) :: merge_updates ds' [] [] false
  end.

End Specified.

(** ** Literals used in the examples *)

Definition text (s : String.string) : Ascii.t := Ascii.of_string s.
Definition diff_of (op : Operation) (s : String.string) : Diff.t :=
  Diff.mk op (Buffer.mk (bytes_of s) false).

(** ** The passes in closed form

    What [mergeEquals] leaves of a list, written as a function of the
    list: the run of EQUALs gathered so far is closed at each edit and
    at the end, a run of two or more by the one Diff that joins them. *)

Definition close_run (run : list Diff.t) : list Diff.t :=
  match run with
  | [] => []
  | [d] => [d]
  | _ :: _ :: _ => [Diff.make_join EQUAL (list_sum (map Diff.bytes run)) run]
  end.

Fixpoint merged_equals (run rest : list Diff.t) : list Diff.t :=
  match rest with
  | [] => close_run run
  | d :: rest' =>
      if Operation_eqb (Diff.operation d) EQUAL
      then merged_equals (run ++ [d]) rest'
      else close_run run ++ d :: merged_equals [] rest'
  end.

(** The lines of [mergeEquals] behind its loop *)
Definition mergeEquals_finish (st : Patch.equals_state) : outcome Patch.diffs :=
  if Patch.me_count st <? 2 then Done (Patch.me_diffs st)
  else
    '(_diffs, _) <- Patch.mergeEquals_join (Patch.me_diffs st) (Patch.me_begin st)
                                           StdList.end_ (Patch.me_size st) ;;
    Done _diffs.

Definition is_edit (d : Diff.t) : bool := negb (Operation_eqb (Diff.operation d) EQUAL).

(** Two EQUALs side by side *)
Fixpoint adjacent_equals (ds : list Diff.t) : bool :=
  match ds with
  | d1 :: (d2 :: _) as rest =>
      (Operation_eqb (Diff.operation d1) EQUAL && Operation_eqb (Diff.operation d2) EQUAL)
      || adjacent_equals rest
  | _ => false
  end.

(** * Properties of the code *)

(** ** Buffers *)

Section BufferFacts.

Variable b : Buffer.t.

Lemma part_data (start : nat) :
  Buffer.data (Buffer.part b start) = skipn start (Buffer.data b).
Proof.
  unfold Buffer.part, Buffer.bytes, Buffer.data.
  destruct (Nat.leb_spec (length (Buffer._data b)) start) as [Hle | Hlt]; simpl.
  - symmetry. now apply skipn_all2.
  - reflexivity.
Qed.

Lemma part_size_data (start size : nat) :
  Buffer.data (Buffer.part_size b start size)
  = firstn size (skipn start (Buffer.data b)).
Proof.
  unfold Buffer.part_size, Buffer.bytes, Buffer.data.
  destruct (Nat.leb_spec (length (Buffer._data b)) start) as [Hle | Hlt]; simpl.
  - rewrite skipn_all2 by assumption. now rewrite firstn_nil.
  - destruct (Nat.eqb_spec size 0) as [-> | Hsize]; simpl.
    + reflexivity.
    + destruct (Nat.min_spec (length (Buffer._data b) - start) size)
        as [[Hm ->] | [Hm ->]].
      * rewrite <- (length_skipn start (Buffer._data b)).
        rewrite firstn_all. symmetry. apply firstn_all2.
        rewrite length_skipn. lia.
      * reflexivity.
Qed.

Lemma part_bytes (start : nat) :
  Buffer.bytes (Buffer.part b start) = Buffer.bytes b - start.
Proof.
  unfold Buffer.bytes at 1. fold (Buffer.data (Buffer.part b start)).
  rewrite part_data. apply length_skipn.
Qed.

Lemma part_size_bytes (start size : nat) :
  Buffer.bytes (Buffer.part_size b start size)
  = Nat.min (Buffer.bytes b - start) size.
Proof.
  unfold Buffer.bytes at 1. fold (Buffer.data (Buffer.part_size b start size)).
  rewrite part_size_data, length_firstn, length_skipn.
  unfold Buffer.bytes, Buffer.data. lia.
Qed.

(** A slice that starts at [start] and has [n] bytes reads the bytes
    [start .. start + n - 1] of the buffer and no others. *)
Lemma slice_lookup (start size i : nat) :
  nth_error (firstn size (skipn start (Buffer.data b))) i
  = if i <? Nat.min (Buffer.bytes b - start) size
    then nth_error (Buffer.data b) (start + i) else None.
Proof.
  unfold Buffer.bytes, Buffer.data.
  destruct (Nat.ltb_spec i (Nat.min (length (Buffer._data b) - start) size))
    as [Hlt | Hge].
  - rewrite nth_error_firstn.
    destruct (Nat.ltb_spec i size) as [_ | Hbad]; [ | lia ].
    apply nth_error_skipn.
  - apply nth_error_None.
    rewrite length_firstn, length_skipn. lia.
Qed.

(** A copy holds the bytes of its original, whichever way it is made. *)
Lemma copy_as_data (deepcopy : bool) :
  Buffer.data (Buffer.copy_as b deepcopy) = Buffer.data b.
Proof. destruct b; [ reflexivity | destruct deepcopy; reflexivity ]. Qed.

Lemma copy_data : Buffer.data (Buffer.copy b) = Buffer.data b.
Proof. apply copy_as_data. Qed.

End BufferFacts.

(** C9.  Slicing is total and in bounds.  [part(start)] is the empty
    buffer when [start] is at or past [bytes()] and the bytes from
    [start] to the end otherwise; [part(start, size)] is the empty
    buffer when [start] is at or past [bytes()] or [size] is zero, and
    otherwise the [min(bytes() - start, size)] bytes from [start] on.
    Byte [i] of a slice is byte [start + i] of the buffer, so a slice
    with any byte at all ends inside the buffer.  Both functions return
    a buffer on every input: there is no other outcome. *)
Theorem Buffer_part_in_bounds (b : Buffer.t) (start size : nat) :
  (if Buffer.bytes b <=? start
   then Buffer.part b start = Buffer.empty
   else Buffer.data (Buffer.part b start) = skipn start (Buffer.data b)
        /\ Buffer.bytes (Buffer.part b start) = Buffer.bytes b - start)
  /\ (if (Buffer.bytes b <=? start) || (size =? 0)
      then Buffer.part_size b start size = Buffer.empty
      else Buffer.data (Buffer.part_size b start size)
           = firstn (Nat.min (Buffer.bytes b - start) size) (skipn start (Buffer.data b))
           /\ Buffer.bytes (Buffer.part_size b start size)
              = Nat.min (Buffer.bytes b - start) size)
  /\ (forall i : nat,
         nth_error (Buffer.data (Buffer.part b start)) i
         = if i <? Buffer.bytes (Buffer.part b start)
           then nth_error (Buffer.data b) (start + i) else None)
  /\ (forall i : nat,
         nth_error (Buffer.data (Buffer.part_size b start size)) i
         = if i <? Buffer.bytes (Buffer.part_size b start size)
           then nth_error (Buffer.data b) (start + i) else None)
  /\ (Buffer.bytes (Buffer.part b start) = 0
      \/ start + Buffer.bytes (Buffer.part b start) = Buffer.bytes b)
  /\ (Buffer.bytes (Buffer.part_size b start size) = 0
      \/ start + Buffer.bytes (Buffer.part_size b start size) <= Buffer.bytes b).
Proof.
  repeat split.
  - unfold Buffer.part.
    destruct (Buffer.bytes b <=? start) eqn:Hcmp; [ reflexivity | ].
    split; [ reflexivity | ].
    unfold Buffer.bytes, Buffer.make; simpl. apply length_skipn.
  - unfold Buffer.part_size.
    destruct ((Buffer.bytes b <=? start) || (size =? 0)) eqn:Hcmp; [ reflexivity | ].
    split; [ reflexivity | ].
    unfold Buffer.bytes, Buffer.make; simpl.
    rewrite length_firstn, length_skipn. lia.
  - intro i. rewrite part_bytes, part_data.
    rewrite <- (firstn_all (skipn start (Buffer.data b))) at 1.
    rewrite slice_lookup, length_skipn.
    unfold Buffer.bytes, Buffer.data.
    now rewrite Nat.min_id.
  - intro i. rewrite part_size_bytes, part_size_data. apply slice_lookup.
  - rewrite part_bytes. lia.
  - rewrite part_size_bytes. lia.
Qed.

(** ** Comparing texts *)

Lemma byte_ltb_irrefl (x : byte) : byte_ltb x x = false.
Proof. unfold byte_ltb. apply N.ltb_irrefl. Qed.

Lemma memcmp_refl (n : nat) : forall a : list byte, memcmp a a n = 0%Z.
Proof.
  induction n as [ | n IH]; intros [ | x a]; simpl; try reflexivity.
  rewrite byte_ltb_irrefl. apply IH.
Qed.



(** ** The choice between the two quarters *)



(** ** The list the constructor builds *)

(** The repository's test program diffs "hallo daar" against
    "hallo hier".  The constructor finds the prefix "hallo " and the
    suffix "r", hands [substr(6, 7)] of both inputs to [compute]
    ("daar" and "hier"), where no heuristic applies and [bisect] adds
    nothing. *)
Lemma assemble_test_input (fuel : nat) (patch : Ascii.t -> Ascii.t -> outcome Patch.diffs)
      (checklines : bool) (deadline : Deadline.t) :
  Patch.assemble (S fuel) patch (text "hallo daar") (text "hallo hier") checklines deadline
  = Done [diff_of EQUAL "hallo "; diff_of EQUAL "r"].
Proof.
  unfold Patch.assemble, Patch.compute.
  destruct (Deadline.to_bool deadline); destruct checklines; reflexivity.
Qed.

Lemma make_deadline_unfold (fuel : nat) (limits : Limits.t) (input1 input2 : Ascii.t)
      (checklines : bool) (deadline : Deadline.t) :
  Ascii.eqb input1 input2 = false ->
  Patch.make_deadline (S fuel) limits input1 input2 checklines deadline
  = (_diffs <- Patch.assemble (S fuel)
                 (fun text1 text2 =>
                    Patch.make_deadline fuel limits text1 text2 checklines deadline)
                 input1 input2 checklines deadline ;;
     Patch.optimize (S fuel) _diffs).
Proof. intro Hne. simpl. now rewrite Hne. Qed.

(** C1, at the input of the repository's own test.  The list built for
    "hallo daar" and "hallo hier" is [EQUAL "hallo "; EQUAL "r"]: its
    spans give "hallo r" for both texts, so neither reconstruction
    holds.  The optimizer then erases the range [[end(), begin())] in
    [mergeUpdates], and no patch comes back at all. *)
Theorem Patch_test_input_not_reconstructed
        (fuel : nat) (limits : Limits.t) (checklines : bool) (deadline : Deadline.t) :
  Patch.assemble (S fuel)
                 (fun text1 text2 =>
                    Patch.make_deadline fuel limits text1 text2 checklines deadline)
                 (text "hallo daar") (text "hallo hier") checklines deadline
  = Done [diff_of EQUAL "hallo "; diff_of EQUAL "r"]
  /\ Specified.concat_without DELETE [diff_of EQUAL "hallo "; diff_of EQUAL "r"]
     = bytes_of "hallo r"
  /\ Specified.concat_without INSERT [diff_of EQUAL "hallo "; diff_of EQUAL "r"]
     = bytes_of "hallo r"
  /\ ~ Specified.reconstructs (bytes_of "hallo daar") (bytes_of "hallo hier")
                              [diff_of EQUAL "hallo "; diff_of EQUAL "r"]
  /\ Patch.make_deadline (S fuel) limits (text "hallo daar") (text "hallo hier")
                         checklines deadline
     = Undefined.
Proof.
  split; [ apply assemble_test_input | ].
  split; [ reflexivity | ].
  split; [ reflexivity | ].
  split.
  - intros [H2 _]. vm_compute in H2. discriminate H2.
  - rewrite make_deadline_unfold by reflexivity.
    rewrite assemble_test_input. reflexivity.
Qed.

(** ** The overlap short-circuit *)

Lemma to_size_t_small (n : nat) :
  (Z.of_nat n < 2 ^ 64)%Z -> Z.to_nat (to_size_t (Z.of_nat n)) = n.
Proof.
  intro Hn. unfold to_size_t, wrap_unsigned.
  rewrite Z.mod_small by lia. apply Nat2Z.id.
Qed.

(** Whenever the shorter text is found at offset [k], the third Diff
    starts at [k], the start of the overlap, not behind it. *)
Lemma overlap_emits (text1 text2 : Ascii.t) (k : nat) (_diffs : Patch.diffs) :
  let o := CommonOverlap.make text1 text2 in
  CommonOverlap._skip o = Z.of_nat k ->
  (Z.of_nat k < 2 ^ 64)%Z ->
  exists d1 d2 d3 : Diff.t,
    Patch.overlap text1 text2 _diffs = (_diffs ++ [d1; d2; d3], true)
    /\ Specified.spans [d1; d2; d3]
       = [ (CommonOverlap.operation o, firstn k (Buffer.data (CommonOverlap._longtext o)));
           (EQUAL, Buffer.data (CommonOverlap._shorttext o));
           (CommonOverlap.operation o, skipn k (Buffer.data (CommonOverlap._longtext o))) ].
Proof.
  intros o Hskip Hk.
  unfold Patch.overlap. fold o.
  unfold CommonOverlap.to_bool. rewrite Hskip.
  destruct (Z.leb_spec 0 (Z.of_nat k)) as [_ | Hneg]; [ | lia ].
  eexists; eexists; eexists. split.
  - unfold StdList.emplace_back. rewrite <- !app_assoc. reflexivity.
  - unfold Specified.spans, Specified.span. cbn [map].
    unfold Diff.make_move, Diff.make, Diff.data. cbn [Diff.operation Diff.buffer].
    unfold CommonOverlap.prefix, CommonOverlap.suffix, CommonOverlap.buffer,
      Ascii.buffer_part, Ascii.buffer_from, Ascii.buffer, Buffer.move.
    rewrite Hskip, to_size_t_small by assumption.
    rewrite copy_data, part_size_data, part_data. reflexivity.
Qed.

(** C2, where [overlap] is reached with "abc" and "b", as it is from
    [Patch(limits, "xxxabc", "xxxb")].  The shorter text sits at offset
    1 and text1 is the longer one, so the specification asks for
    [DELETE "a"; EQUAL "b"; DELETE "c"].  [CommonOverlap::suffix] slices
    the longer text from [_skip] on, and the code emits
    [DELETE "a"; EQUAL "b"; DELETE "bc"]. *)
Theorem overlap_suffix_starts_at_the_overlap :
  memmem (bytes_of "abc") (bytes_of "b") = Some 1
  /\ Patch.overlap (text "abc") (text "b") []
     = ([diff_of DELETE "a"; diff_of EQUAL "b"; diff_of DELETE "bc"], true)
  /\ Specified.overlap_diffs DELETE (bytes_of "abc") (bytes_of "b") 1
     = [(DELETE, bytes_of "a"); (EQUAL, bytes_of "b"); (DELETE, bytes_of "c")]
  /\ Specified.spans (fst (Patch.overlap (text "abc") (text "b") []))
     <> Specified.overlap_diffs DELETE (bytes_of "abc") (bytes_of "b") 1
  /\ (forall (fuel : nat) (patch : Ascii.t -> Ascii.t -> outcome Patch.diffs)
             (checklines : bool) (deadline : Deadline.t),
         Patch.assemble fuel patch (text "xxxabc") (text "xxxb") checklines deadline
         = Done [diff_of EQUAL "xxx"; diff_of DELETE "a"; diff_of EQUAL "b";
                 diff_of DELETE "bc"]).
Proof.
  split; [ reflexivity | ].
  split; [ reflexivity | ].
  split; [ reflexivity | ].
  split; [ intro H; vm_compute in H; discriminate H | ].
  intros fuel patch checklines deadline. reflexivity.
Qed.

(** ** The half-match search *)

(** The loop of [CommonHalf] writes [_substr] and nothing else: the two
    counters keep the zero they are initialised with. *)
Lemma search_step_keeps_counts (seed : Ascii.t) (index : nat)
      (st st' : CommonHalf.search_state) :
  CommonHalf.search_step seed index st = Done st' ->
  CommonHalf._prefix (fst st') = CommonHalf._prefix (fst st)
  /\ CommonHalf._suffix (fst st') = CommonHalf._suffix (fst st)
  /\ CommonHalf._longtext (fst st') = CommonHalf._longtext (fst st).
Proof.
  destruct st as [self pos]. unfold CommonHalf.search_step.
  destruct (pos =? INT_MAX)%Z; [ discriminate | ].
  destruct (Ascii.find_from _ _ _) as [found | | ]; simpl; try discriminate.
  destruct (0 <=? to_int found)%Z.
  - destruct (_ <? _); intro H; inversion H; subst; simpl; auto.
  - intro H; inversion H; subst; simpl; auto.
Qed.

Lemma search_keeps_counts (fuel : nat) (seed : Ascii.t) (index : nat) :
  forall (st : CommonHalf.search_state) (h : CommonHalf.t),
    CommonHalf.search fuel seed index st = Done h ->
    CommonHalf._prefix h = CommonHalf._prefix (fst st)
    /\ CommonHalf._suffix h = CommonHalf._suffix (fst st)
    /\ CommonHalf._longtext h = CommonHalf._longtext (fst st).
Proof.
  induction fuel as [ | fuel IH]; intros st h; simpl; [ discriminate | ].
  destruct (CommonHalf.search_step seed index st) as [st' | | ] eqn:Hstep;
    simpl; try discriminate.
  apply search_step_keeps_counts in Hstep. destruct Hstep as (Hp & Hs & Hl).
  destruct (0 <=? snd st')%Z.
  - intro H. apply IH in H. destruct H as (Hp' & Hs' & Hl').
    repeat split; congruence.
  - intro H. inversion H; subst. auto.
Qed.

Lemma CommonHalf_make_counts_nothing (fuel : nat) (longtext shorttext : Ascii.t)
      (index : nat) (h : CommonHalf.t) :
  CommonHalf.make fuel longtext shorttext index = Done h ->
  CommonHalf.characters h = 0
  /\ CommonHalf.valid h = (Ascii.characters longtext =? 0).
Proof.
  unfold CommonHalf.make. intro H.
  apply search_keeps_counts in H. simpl in H. destruct H as (Hp & Hs & Hl).
  assert (Hc : CommonHalf.characters h = 0).
  { unfold CommonHalf.characters. now rewrite Hp, Hs. }
  split; [ exact Hc | ].
  unfold CommonHalf.valid. rewrite Hc, Hl. simpl.
  destruct (Ascii.characters longtext); reflexivity.
Qed.

(** C3, at the search [HalfMatch] starts for the second quarter when
    [Patch(limits, "acdefgd1234567", "bcdefgh1234567")] reaches
    [halfmatch]: long text "bcdefgh", short text "acdefgd", index 2.
    The seed "d" occurs in the short text at 2 and at 6; around 2 the
    texts share 4 + 1 characters, around 6 they share 1 + 0.  The
    specification has the search keep offset 2 with 5 matched characters
    and report a valid result (2 * 5 >= 7).  The code keeps the last
    offset, 6, counts no matched character and reports the result as
    not valid; [HalfMatch] has no winner and [compute] adds nothing. *)
Theorem CommonHalf_forgets_the_match (fuel : nat) :
  Specified.occurrences (bytes_of "d") (bytes_of "acdefgd") 0 = [2; 6]
  /\ Specified.matched_around (bytes_of "bcdefgh") (bytes_of "acdefgd") 2 2 = 5
  /\ Specified.matched_around (bytes_of "bcdefgh") (bytes_of "acdefgd") 2 6 = 1
  /\ Specified.best_matched (bytes_of "bcdefgh") (bytes_of "acdefgd") 2 = 5
  /\ Specified.half_valid (bytes_of "bcdefgh") (bytes_of "acdefgd") 2 = true
  /\ CommonHalf.make (3 + fuel) (text "bcdefgh") (text "acdefgd") 2
     = Done (CommonHalf.mk (text "bcdefgh") (text "acdefgd") 2 6 0 0)
  /\ CommonHalf.characters (CommonHalf.mk (text "bcdefgh") (text "acdefgd") 2 6 0 0) = 0
  /\ CommonHalf.valid (CommonHalf.mk (text "bcdefgh") (text "acdefgd") 2 6 0 0) = false
  /\ HalfMatch.make (3 + fuel) (text "bcdefgh") (text "acdefgd")
     = Done (HalfMatch.mk (CommonHalf.mk (text "bcdefgh") (text "acdefgd") 2 6 0 0)
                          (CommonHalf.mk (text "bcdefgh") (text "acdefgd") 4 4 0 0)
                          None)
  /\ (forall (patch : Ascii.t -> Ascii.t -> outcome Patch.diffs) (checklines : bool),
         Patch.compute (3 + fuel) patch
                       (Ascii.substr (text "acdefgd1234567") 0 7)
                       (Ascii.substr (text "bcdefgh1234567") 0 7)
                       checklines (Deadline.make LONG_MAX 0) []
         = Done []).
Proof.
  repeat split; try reflexivity.
  intros patch checklines. destruct checklines; reflexivity.
Qed.

(** ** Loops *)

(** A loop whose body hands back the state it was given never leaves. *)
Lemma while_spins {S : Type} (cond : S -> bool) (body : S -> outcome S) (s : S) :
  cond s = true -> body s = Done s ->
  forall fuel : nat, while fuel cond body s = OutOfFuel.
Proof.
  intros Hcond Hbody fuel.
  induction fuel as [ | fuel IH]; simpl; rewrite Hcond; [ reflexivity | ].
  rewrite Hbody. exact IH.
Qed.

Lemma while_done {S : Type} (cond : S -> bool) (body : S -> outcome S) (s : S) (fuel : nat) :
  cond s = false -> while fuel cond body s = Done s.
Proof. intro Hcond. destruct fuel; simpl; now rewrite Hcond. Qed.

Lemma while_step {S : Type} (cond : S -> bool) (body : S -> outcome S) (s : S) (fuel : nat) :
  cond s = true ->
  while (Datatypes.S fuel) cond body s = (s' <- body s ;; while fuel cond body s').
Proof. intro Hcond. simpl. now rewrite Hcond. Qed.

(** ** [mergeUpdates] *)

Section MergeUpdates.

Import Patch StdList.

(** Once [updates] is set, a step only moves [iter] on and gathers
    content: the [EQUAL] case leaves through its first line. *)
Lemma mergeUpdates_step_keeps (l : diffs) (i u : nat) (mi md : Diff.t) :
  i < length l ->
  exists mi' md' : Diff.t,
    mergeUpdates_step (mk_merge l (Some i) (Some u) mi md)
    = Done (mk_merge l (at_position l (S i)) (Some u) mi' md').
Proof.
  intro Hi. unfold mergeUpdates_step, mergeUpdates_body; simpl.
  destruct (nth_error l i) as [d | ] eqn:Hd.
  2:{ apply nth_error_None in Hd. lia. }
  simpl. apply Nat.ltb_lt in Hi.
  destruct (Diff.operation d); simpl; rewrite Hi; eexists; eexists; reflexivity.
Qed.

Lemma mergeUpdates_loop_keeps (l : diffs) (u : nat) :
  forall (n i fuel : nat) (mi md : Diff.t),
    length l - i = n -> i <= length l -> n <= fuel ->
    exists st : merge_state,
      while fuel (fun st => negb (is_end (mu_iter st))) mergeUpdates_step
            (mk_merge l (at_position l i) (Some u) mi md) = Done st
      /\ mu_diffs st = l.
Proof.
  induction n as [ | n IH]; intros i fuel mi md Hn Hi Hfuel.
  - unfold at_position.
    destruct (Nat.ltb_spec i (length l)) as [Hlt | _]; [ lia | ].
    eexists. split; [ now apply while_done | reflexivity ].
  - unfold at_position.
    destruct (Nat.ltb_spec i (length l)) as [Hlt | Hge]; [ | lia ].
    destruct fuel as [ | fuel]; [ lia | ].
    rewrite while_step by reflexivity.
    destruct (mergeUpdates_step_keeps l i u mi md Hlt) as (mi' & md' & ->).
    simpl. apply IH; lia.
Qed.

(** A list that starts with an edit comes back as it went in. *)
Lemma mergeUpdates_keeps_edits_first (fuel : nat) (d : Diff.t) (l : diffs) :
  Diff.operation d <> EQUAL ->
  length (d :: l) <= fuel ->
  mergeUpdates fuel (d :: l) = Done (d :: l).
Proof.
  intros Hop Hfuel. unfold mergeUpdates.
  destruct fuel as [ | fuel]; [ simpl in Hfuel; lia | ].
  rewrite while_step by reflexivity.
  assert (Hfirst : exists mi md : Diff.t,
             mergeUpdates_step (mk_merge (d :: l) (begin_ (d :: l)) end_
                                          (Diff.make_empty INSERT) (Diff.make_empty DELETE))
             = Done (mk_merge (d :: l) (at_position (d :: l) 1) (Some 0) mi md)).
  { unfold mergeUpdates_step, mergeUpdates_body; simpl.
    destruct (Diff.operation d); [ | | congruence ]; simpl;
      eexists; eexists; reflexivity. }
  destruct Hfirst as (mi & md & ->). simpl bind.
  destruct (mergeUpdates_loop_keeps (d :: l) 0 (length l) 1 fuel mi md)
    as (st & -> & Hst); simpl in *; try lia.
  now rewrite Hst.
Qed.

(** A list that starts with an EQUAL has [erase(updates, iter)] called
    with [updates == end()] on its first element. *)
Lemma mergeUpdates_equal_first (fuel : nat) (d : Diff.t) (l : diffs) :
  Diff.operation d = EQUAL ->
  mergeUpdates (S fuel) (d :: l) = Undefined.
Proof.
  intro Hop. unfold mergeUpdates.
  rewrite while_step by reflexivity.
  unfold mergeUpdates_step, mergeUpdates_body; simpl.
  rewrite Hop. reflexivity.
Qed.

End MergeUpdates.

(** C4.  [mergeUpdates] leaves a run of edits as it found it.  At the
    EQUAL behind a run the switch case starts with
    [if (updates != _diffs.end()) break;], which leaves exactly when
    there is a run to merge, and nothing is done at the end of the list.
    For [INSERT "a"; INSERT "b"; EQUAL "c"] the specification asks for
    [INSERT "ab"; EQUAL "c"]; for [INSERT ""], the list the constructor
    builds for "daa" and "hie", it asks for the empty list.  The code
    returns both lists unchanged. *)
Theorem mergeUpdates_leaves_runs_unmerged (fuel : nat) :
  Patch.mergeUpdates (3 + fuel) [diff_of INSERT "a"; diff_of INSERT "b"; diff_of EQUAL "c"]
  = Done [diff_of INSERT "a"; diff_of INSERT "b"; diff_of EQUAL "c"]
  /\ Specified.merge_updates
       (Specified.spans [diff_of INSERT "a"; diff_of INSERT "b"; diff_of EQUAL "c"])
       [] [] false
     = [(INSERT, bytes_of "ab"); (EQUAL, bytes_of "c")]
  /\ (forall (patch : Ascii.t -> Ascii.t -> outcome Patch.diffs)
             (checklines : bool) (deadline : Deadline.t),
         Patch.assemble fuel patch (text "daa") (text "hie") checklines deadline
         = Done [Diff.mk INSERT Buffer.empty])
  /\ Patch.mergeUpdates (1 + fuel) [Diff.mk INSERT Buffer.empty]
     = Done [Diff.mk INSERT Buffer.empty]
  /\ Specified.merge_updates (Specified.spans [Diff.mk INSERT Buffer.empty]) [] [] false
     = [].
Proof.
  split; [ apply mergeUpdates_keeps_edits_first; [ discriminate | simpl; lia ] | ].
  split; [ reflexivity | ].
  split; [ intros patch checklines deadline; reflexivity | ].
  split; [ apply mergeUpdates_keeps_edits_first; [ discriminate | simpl; lia ] | ].
  reflexivity.
Qed.

(** ** [shift] and [optimize] *)

(** "ax" against "bx": no common prefix, the common suffix "x", and
    [compute] is handed "a" and "b". *)
Lemma assemble_ax_bx (fuel : nat) (patch : Ascii.t -> Ascii.t -> outcome Patch.diffs)
      (checklines : bool) (deadline : Deadline.t) :
  Patch.assemble fuel patch (text "ax") (text "bx") checklines deadline
  = Done [diff_of DELETE "a"; diff_of INSERT "b"; diff_of EQUAL "x"].
Proof. reflexivity. Qed.

(** Running a loop on a concrete state: take the steps the state
    allows, then leave. *)
Ltac run_while :=
  repeat (rewrite while_step by reflexivity; cbn [bind]; simpl);
  rewrite while_done by reflexivity; cbn [bind]; simpl.

(** A DELETE, an INSERT and an EQUAL.  With [prev] on the DELETE the
    third [continue] of [shift] is taken, and the iterators are only
    moved at the end of the body. *)
Lemma shift_spins_after_edit (a b c : Buffer.t) (fuel : nat) :
  Patch.shift fuel [Diff.mk DELETE a; Diff.mk INSERT b; Diff.mk EQUAL c] = OutOfFuel.
Proof.
  unfold Patch.shift. simpl StdList.begin_. simpl bind.
  rewrite while_spins; reflexivity.
Qed.

Lemma mergeEquals_edit_edit_equal (a b c : Buffer.t) (fuel : nat) :
  Patch.mergeEquals (3 + fuel) [Diff.mk DELETE a; Diff.mk INSERT b; Diff.mk EQUAL c]
  = Done [Diff.mk DELETE a; Diff.mk INSERT b; Diff.mk EQUAL c].
Proof.
  unfold Patch.mergeEquals. cbn [Nat.add]. simpl StdList.begin_.
  run_while. reflexivity.
Qed.

Lemma optimize_spins_after_edit (a b c : Buffer.t) (fuel : nat) :
  Patch.optimize fuel [Diff.mk DELETE a; Diff.mk INSERT b; Diff.mk EQUAL c] = OutOfFuel.
Proof.
  destruct fuel as [ | [ | [ | fuel ] ] ]; try reflexivity.
  cbn [Patch.optimize].
  rewrite mergeUpdates_keeps_edits_first by (simpl; try discriminate; lia).
  cbn [bind]. change (S (S (S fuel))) with (3 + fuel).
  rewrite mergeEquals_edit_edit_equal. cbn [bind].
  now rewrite shift_spins_after_edit.
Qed.

(** A single edit.  [shift] sets [current] to [end()] and asks for the
    element behind it. *)
Lemma optimize_lone_insert (b : Buffer.t) (fuel : nat) :
  Patch.optimize (S fuel) [Diff.mk INSERT b] = Undefined.
Proof.
  cbn [Patch.optimize].
  rewrite mergeUpdates_keeps_edits_first by (simpl; try discriminate; lia).
  cbn [bind]. unfold Patch.mergeEquals. simpl StdList.begin_.
  run_while. reflexivity.
Qed.

(** An EQUAL in front. *)
Lemma optimize_equal_first (d : Diff.t) (l : Patch.diffs) (fuel : nat) :
  Diff.operation d = EQUAL -> Patch.optimize (S fuel) (d :: l) = Undefined.
Proof.
  intro Hop. cbn [Patch.optimize]. now rewrite mergeUpdates_equal_first.
Qed.

(** C5.  The optimizer does not terminate on the list built for "ax"
    and "bx".  [shift] starts with [prev] on DELETE "a", [current] on
    INSERT "b" and [next] on EQUAL "x"; the test on [prev] fails, the
    [continue] skips the lines that move the iterators, and the loop
    comes back to the same triple: every step budget is used up, in
    [shift] and hence in [optimize]. *)
Theorem shift_never_leaves_its_triple (fuel : nat) :
  (forall (patch : Ascii.t -> Ascii.t -> outcome Patch.diffs)
          (checklines : bool) (deadline : Deadline.t),
      Patch.assemble fuel patch (text "ax") (text "bx") checklines deadline
      = Done [diff_of DELETE "a"; diff_of INSERT "b"; diff_of EQUAL "x"])
  /\ Patch.shift_body
       (Patch.mk_shift [diff_of DELETE "a"; diff_of INSERT "b"; diff_of EQUAL "x"]
                       (Some 0) (Some 1) (Some 2) 0)
     = Done (Patch.mk_shift [diff_of DELETE "a"; diff_of INSERT "b"; diff_of EQUAL "x"]
                            (Some 0) (Some 1) (Some 2) 0)
  /\ Patch.shift fuel [diff_of DELETE "a"; diff_of INSERT "b"; diff_of EQUAL "x"]
     = OutOfFuel
  /\ Patch.optimize fuel [diff_of DELETE "a"; diff_of INSERT "b"; diff_of EQUAL "x"]
     = OutOfFuel.
Proof.
  split; [ intros; apply assemble_ax_bx | ].
  split; [ reflexivity | ].
  split; [ apply shift_spins_after_edit | apply optimize_spins_after_edit ].
Qed.

(** ** The deadline and the half-match branch *)

(** [compute] runs [halfmatch] under [deadline && ...] and [halfmatch]
    returns before it builds a [HalfMatch] when the longer text has
    fewer than 4 characters or the shorter one less than half as many:
    in both cases the result owes nothing to the step budget or to the
    nested constructor. *)
Lemma halfmatch_refused (fuel : nat) (patch : Ascii.t -> Ascii.t -> outcome Patch.diffs)
      (text1 text2 : Ascii.t) (_diffs : Patch.diffs) :
  Patch.halfmatch_possible
    (if Ascii.characters text2 <? Ascii.characters text1 then text1 else text2)
    (if Ascii.characters text2 <? Ascii.characters text1 then text2 else text1) = false ->
  Patch.halfmatch fuel patch text1 text2 _diffs = Done (_diffs, false).
Proof. intro Hno. unfold Patch.halfmatch. now rewrite Hno. Qed.

Lemma compute_without_deadline (fuel fuel' : nat)
      (patch patch' : Ascii.t -> Ascii.t -> outcome Patch.diffs)
      (text1 text2 : Ascii.t) (checklines : bool) (deadline : Deadline.t)
      (_diffs : Patch.diffs) :
  Deadline.to_bool deadline = false ->
  Patch.compute fuel patch text1 text2 checklines deadline _diffs
  = Patch.compute fuel' patch' text1 text2 checklines deadline _diffs.
Proof. intro Hno. unfold Patch.compute. now rewrite Hno. Qed.

Lemma compute_without_halfmatch (fuel fuel' : nat)
      (patch patch' : Ascii.t -> Ascii.t -> outcome Patch.diffs)
      (text1 text2 : Ascii.t) (checklines : bool) (deadline : Deadline.t)
      (_diffs : Patch.diffs) :
  Patch.halfmatch_possible
    (if Ascii.characters text2 <? Ascii.characters text1 then text1 else text2)
    (if Ascii.characters text2 <? Ascii.characters text1 then text2 else text1) = false ->
  Patch.compute fuel patch text1 text2 checklines deadline _diffs
  = Patch.compute fuel' patch' text1 text2 checklines deadline _diffs.
Proof.
  intro Hno. unfold Patch.compute.
  destruct (Patch.overlap text1 text2 _diffs) as [ds done].
  now rewrite !halfmatch_refused by assumption.
Qed.

(** C7, for limits without a time budget.  [Limits::deadline] answers
    a timeout of zero (or less) with the largest [clock_t]; the
    constructor [Deadline(time_t seconds)] stores it in [_max], and
    [operator bool], which is [_max > 0], then reports a deadline as
    set.  [compute] therefore enters [halfmatch]: for "axxx" and "bxxx",
    the texts [Patch(limits, "axxxx", "bxxxx")] hands to [compute], it
    needs steps for the search [HalfMatch] runs, where under the
    deadline of [Deadline()] it returns at once. *)
Theorem zero_timeout_sets_a_deadline (limits : Limits.t) (clock0 clock1 : Z) :
  Qle_bool (Limits.timeout limits) 0 = true ->
  Deadline.to_bool (Deadline.make (Limits.deadline limits clock0) clock1) = true
  /\ Patch.halfmatch_possible (text "bxxx") (text "axxx") = true
  /\ (forall (patch : Ascii.t -> Ascii.t -> outcome Patch.diffs) (checklines : bool),
         Patch.compute 0 patch (text "axxx") (text "bxxx") checklines
                       (Deadline.make (Limits.deadline limits clock0) clock1) []
         = OutOfFuel)
  /\ (forall (fuel : nat) (patch : Ascii.t -> Ascii.t -> outcome Patch.diffs)
             (checklines : bool),
         Patch.compute fuel patch (text "axxx") (text "bxxx") checklines
                       (Deadline.infinite clock1) []
         = Done []).
Proof.
  intro Hzero.
  assert (Hset : Deadline.to_bool (Deadline.make (Limits.deadline limits clock0) clock1)
                 = true).
  { unfold Limits.deadline. rewrite Hzero. reflexivity. }
  split; [ exact Hset | ].
  split; [ reflexivity | ].
  split.
  - intros patch checklines. unfold Patch.compute. rewrite Hset.
    destruct checklines; reflexivity.
  - intros fuel patch checklines. destruct checklines; reflexivity.
Qed.

Lemma zero_timeout_sets_a_deadline_witness :
  Qle_bool (Limits.timeout (Limits.mk 0 4 (1 # 2) 1000 (1 # 2) 4 32)) 0 = true
  /\ Deadline.to_bool
       (Deadline.make (Limits.deadline (Limits.mk 0 4 (1 # 2) 1000 (1 # 2) 4 32) 5) 6)
     = true.
Proof.
  split; [ reflexivity | ].
  exact (proj1 (zero_timeout_sets_a_deadline
                  (Limits.mk 0 4 (1 # 2) 1000 (1 # 2) 4 32) 5 6 eq_refl)).
Defined.

(** ** Which calls of the constructor return

    The lemmas of this part follow the constructor through every pair
    of texts that differ.  The half-match never succeeds, so [compute]
    adds one edit, the Diffs of [overlap], or nothing; the list handed
    to [optimize] then starts with an EQUAL, is a single empty INSERT,
    or is a DELETE, an INSERT and an EQUAL; and [optimize] returns on
    none of the three. *)

Lemma affix_scan_grows (m : nat) : forall l1 l2 acc, acc <= affix_scan m l1 l2 acc.
Proof.
  induction m as [ | m IH]; intros l1 l2 acc; simpl; [ lia | ].
  destruct l1 as [ | x l1], l2 as [ | y l2]; try lia.
  destruct (Byte.eqb x y); simpl; [ | lia ].
  specialize (IH l1 l2 (S acc)). lia.
Qed.

Lemma affix_scan_bound (m : nat) : forall l1 l2 acc, affix_scan m l1 l2 acc <= acc + m.
Proof.
  induction m as [ | m IH]; intros l1 l2 acc; simpl; [ lia | ].
  destruct l1 as [ | x l1], l2 as [ | y l2]; try lia.
  destruct (Byte.eqb x y); simpl; [ | lia ].
  specialize (IH l1 l2 (S acc)). lia.
Qed.

Lemma affix_scan_zero (m : nat) (x y : byte) (l1 l2 : list byte) :
  affix_scan (S m) (x :: l1) (y :: l2) 0 = 0 -> Byte.eqb x y = false.
Proof.
  simpl. destruct (Byte.eqb x y); simpl; [ | reflexivity ].
  pose proof (affix_scan_grows m l1 l2 1). lia.
Qed.

Lemma starts_with_length (needle hay : list byte) :
  starts_with needle hay = true -> length needle <= length hay.
Proof.
  revert hay. induction needle as [ | x needle IH]; intros [ | y hay]; simpl; try lia; try discriminate.
  intro H. apply andb_prop in H. destruct H as [_ H]. apply IH in H. lia.
Qed.

Lemma memmem_short_hay (hay needle : list byte) :
  length hay < length needle -> memmem hay needle = None.
Proof.
  induction hay as [ | y hay IH]; intro Hlen; simpl.
  - destruct needle; [ simpl in Hlen; lia | reflexivity ].
  - destruct (starts_with needle (y :: hay)) eqn:Hs.
    + apply starts_with_length in Hs. simpl in *. lia.
    + rewrite IH by (simpl in Hlen; lia). reflexivity.
Qed.

Lemma memmem_same_length (x y : byte) (hay needle : list byte) :
  Byte.eqb x y = false -> length hay = length needle ->
  memmem (y :: hay) (x :: needle) = None.
Proof.
  intros Hxy Hlen. simpl. rewrite Hxy. simpl.
  rewrite memmem_short_hay by (simpl; lia). reflexivity.
Qed.

(** Unless the buffer and the needle are both empty, the answer of
    [find] is that of [memmem] on the bytes: a buffer with bytes has a
    pointer that is not null, and no needle with bytes occurs in the
    null buffer. *)
Lemma find_as_memmem (b that : Buffer.t) :
  0 < Buffer.bytes b \/ 0 < Buffer.bytes that ->
  Buffer.find b that
  = match memmem (Buffer.data b) (Buffer.data that) with
    | None => (-1)%Z
    | Some k => Z.of_nat k
    end.
Proof.
  intro Hsome. destruct b as [data allocated | ]; [ reflexivity | ].
  unfold Buffer.bytes at 1 in Hsome. cbn [Buffer._data length] in Hsome.
  destruct Hsome as [Hbad | Hthat]; [ lia | ].
  unfold Buffer.find, Buffer.data. cbn [Buffer._data].
  rewrite memmem_short_hay; [ reflexivity | exact Hthat ].
Qed.

Lemma find_from_as_memmem (b that : Buffer.t) (pos : nat) :
  0 < Buffer.bytes b \/ 0 < Buffer.bytes that ->
  Buffer.find_from b that pos
  = if Buffer.bytes b <? pos then Undefined
    else match memmem (skipn pos (Buffer.data b)) (Buffer.data that) with
         | None => Done (-1)%Z
         | Some k => Done (Z.of_nat (pos + k))
         end.
Proof.
  intro Hsome. destruct b as [data allocated | ]; [ reflexivity | ].
  unfold Buffer.bytes at 1 in Hsome. cbn [Buffer._data length] in Hsome.
  destruct Hsome as [Hbad | Hthat]; [ lia | ].
  unfold Buffer.find_from, Buffer.data. cbn [Buffer._data].
  rewrite skipn_nil, memmem_short_hay; [ reflexivity | exact Hthat ].
Qed.

Lemma HalfMatch_make_never_valid (fuel : nat) (longtext shorttext : Ascii.t) (m : HalfMatch.t) :
  HalfMatch.make fuel longtext shorttext = Done m ->
  (Ascii.characters longtext =? 0) = false ->
  HalfMatch.not m = true.
Proof.
  unfold HalfMatch.make. intros Hm Hlong.
  destruct (CommonHalf.make fuel longtext shorttext ((Ascii.characters longtext + 3) / 4))
    as [q2 | | ] eqn:Hq2; cbn [bind] in Hm; try discriminate.
  destruct (CommonHalf.make fuel longtext shorttext ((Ascii.characters longtext + 1) / 2))
    as [q3 | | ] eqn:Hq3; cbn [bind] in Hm; try discriminate.
  apply CommonHalf_make_counts_nothing in Hq2, Hq3.
  destruct Hq2 as [_ Hv2], Hq3 as [_ Hv3].
  inversion Hm; subst m.
  unfold HalfMatch.not, HalfMatch.valid, HalfMatch.pick, CommonHalf.to_bool.
  cbn [HalfMatch._winner]. now rewrite Hv2, Hv3, Hlong.
Qed.

Lemma halfmatch_never_matches (fuel : nat) (patch : Ascii.t -> Ascii.t -> outcome Patch.diffs)
      (text1 text2 : Ascii.t) (_diffs : Patch.diffs) (r : Patch.diffs * bool) :
  Patch.halfmatch fuel patch text1 text2 _diffs = Done r -> r = (_diffs, false).
Proof.
  unfold Patch.halfmatch.
  set (longtext := if Ascii.characters text2 <? Ascii.characters text1 then text1 else text2).
  set (shorttext := if Ascii.characters text2 <? Ascii.characters text1 then text2 else text1).
  destruct (Patch.halfmatch_possible longtext shorttext) eqn:Hposs; cbn [negb].
  2:{ intro H; now inversion H. }
  assert (Hlong : (Ascii.characters longtext =? 0) = false).
  { unfold Patch.halfmatch_possible in Hposs.
    apply negb_true_iff, orb_false_iff in Hposs. destruct Hposs as [H4 _].
    apply Nat.ltb_ge in H4. apply Nat.eqb_neq. lia. }
  destruct (HalfMatch.make fuel longtext shorttext) as [m | | ] eqn:Hm;
    cbn [bind]; try discriminate.
  rewrite (HalfMatch_make_never_valid _ _ _ _ Hm Hlong).
  intro H; now inversion H.
Qed.

Lemma compute_shapes (fuel : nat) (patch : Ascii.t -> Ascii.t -> outcome Patch.diffs)
      (text1 text2 : Ascii.t) (checklines : bool) (deadline : Deadline.t)
      (_diffs ds : Patch.diffs) :
  Patch.compute fuel patch text1 text2 checklines deadline _diffs = Done ds ->
  ds = (if Ascii.characters text1 =? 0
        then _diffs ++ [Diff.make INSERT (Ascii.buffer text2)]
        else if Ascii.characters text2 =? 0
             then _diffs ++ [Diff.make DELETE (Ascii.buffer text1)]
             else if snd (Patch.overlap text1 text2 _diffs)
                  then fst (Patch.overlap text1 text2 _diffs)
                  else _diffs).
Proof.
  unfold Patch.compute.
  destruct (Ascii.characters text1 =? 0); [ intro H; now inversion H | ].
  destruct (Ascii.characters text2 =? 0); [ intro H; now inversion H | ].
  destruct (Patch.overlap text1 text2 _diffs) as [ds' done] eqn:Ho.
  assert (Hds' : done = false -> ds' = _diffs).
  { intros ->. unfold Patch.overlap in Ho.
    destruct (CommonOverlap.to_bool _); [ now inversion Ho | ].
    destruct (_ || _); now inversion Ho. }
  cbn [fst snd].
  destruct done; [ intro H; now inversion H | ].
  rewrite Hds' by reflexivity.
  destruct (Deadline.to_bool deadline).
  - destruct (Patch.halfmatch fuel patch text1 text2 _diffs) as [r | | ] eqn:Hh;
      cbn [bind]; try discriminate.
    apply halfmatch_never_matches in Hh. subst r.
    unfold Patch.linemode, Patch.bisect. destruct (_ && _); intro H; now inversion H.
  - cbn [bind]. unfold Patch.linemode, Patch.bisect.
    destruct (_ && _); intro H; now inversion H.
Qed.

Lemma overlap_extends (text1 text2 : Ascii.t) (_diffs : Patch.diffs) :
  exists tail : Patch.diffs, fst (Patch.overlap text1 text2 _diffs) = _diffs ++ tail.
Proof.
  unfold Patch.overlap, StdList.emplace_back.
  destruct (CommonOverlap.to_bool _); [ | destruct (_ || _) ]; cbn [fst];
    rewrite <- ?app_assoc; eexists; try reflexivity.
  symmetry. apply app_nil_r.
Qed.

Lemma compute_extends (fuel : nat) (patch : Ascii.t -> Ascii.t -> outcome Patch.diffs)
      (text1 text2 : Ascii.t) (checklines : bool) (deadline : Deadline.t)
      (_diffs ds : Patch.diffs) :
  Patch.compute fuel patch text1 text2 checklines deadline _diffs = Done ds ->
  exists tail : Patch.diffs, ds = _diffs ++ tail.
Proof.
  intro H. apply compute_shapes in H. subst ds.
  destruct (Ascii.characters text1 =? 0); [ eexists; reflexivity | ].
  destruct (Ascii.characters text2 =? 0); [ eexists; reflexivity | ].
  destruct (snd _); [ apply overlap_extends | ].
  exists []. symmetry. apply app_nil_r.
Qed.

Lemma substr_characters (b : Ascii.t) (start size : nat) :
  Ascii.characters (Ascii.substr b start size) = Nat.min (Ascii.characters b - start) size.
Proof. apply part_size_bytes. Qed.

Lemma substr_from_data (b : Ascii.t) (start : nat) :
  Buffer.data (Ascii.substr_from b start) = skipn start (Buffer.data b).
Proof. apply part_data. Qed.

Lemma substr_data (b : Ascii.t) (start size : nat) :
  Buffer.data (Ascii.substr b start size) = firstn size (skipn start (Buffer.data b)).
Proof. apply part_size_data. Qed.

Lemma assemble_shapes (fuel : nat) (patch : Ascii.t -> Ascii.t -> outcome Patch.diffs)
      (input1 input2 : Ascii.t) (checklines : bool) (deadline : Deadline.t)
      (ds : Patch.diffs) :
  Patch.assemble fuel patch input1 input2 checklines deadline = Done ds ->
  (exists (e : Diff.t) (l : Patch.diffs), ds = e :: l /\ Diff.operation e = EQUAL)
  \/ ds = [Diff.mk INSERT Buffer.empty]
  \/ (exists a b c : Buffer.t, ds = [Diff.mk DELETE a; Diff.mk INSERT b; Diff.mk EQUAL c]).
Proof.
  unfold Patch.assemble.
  destruct (CommonPrefix.characters (CommonPrefix.make input1 input2)) as [ | p'] eqn:Hp0.
  - (* no common prefix *)
    cbn [Nat.ltb Nat.leb Nat.add].
    set (suffix := CommonSuffix.make _ _).
    set (s := CommonSuffix.characters suffix).
    assert (Hs : s <= Nat.min (Ascii.characters input1) (Ascii.characters input2)).
    { unfold s, suffix, CommonSuffix.make, CommonSuffix.characters.
      cbn [CommonSuffix._size].
      etransitivity; [ apply affix_scan_bound | ].
      unfold Ascii.characters, Ascii.substr_from.
      change (Buffer.bytes (Buffer.move ?x)) with (Buffer.bytes x).
      rewrite !part_bytes. lia. }
    destruct (Patch.compute _ _ _ _ _ _ _) as [ds' | | ] eqn:Hc; cbn [bind];
      try discriminate.
    intro H. inversion H as [Hds]. clear H.
    apply compute_shapes in Hc.
    rewrite !substr_characters in Hc. rewrite !Nat.sub_0_r in Hc.
    replace (Nat.min (Ascii.characters input1) s) with s in Hc by lia.
    replace (Nat.min (Ascii.characters input2) s) with s in Hc by lia.
    destruct s as [ | s'] eqn:Es.
    + (* nothing in common at either end *)
      right; left. cbn [Nat.eqb] in Hc. subst ds' ds. cbn [Nat.ltb Nat.leb app].
      unfold Ascii.substr, Buffer.part_size. cbn [Nat.eqb].
      rewrite orb_true_r. reflexivity.
    + cbn [Nat.eqb] in Hc.
      (* the first characters differ *)
      assert (Hheads : exists x r1 y r2,
                 Buffer.data input1 = x :: r1 /\ Buffer.data input2 = y :: r2
                 /\ Byte.eqb x y = false).
      { unfold CommonPrefix.make, CommonPrefix.characters in Hp0.
        cbn [CommonPrefix._size] in Hp0.
        unfold Ascii.characters, Ascii.begin_, Buffer.bytes, Buffer.data in *.
        destruct (Buffer._data input1) as [ | x r1]; [ simpl in Hs; lia | ].
        destruct (Buffer._data input2) as [ | y r2]; [ simpl in Hs; lia | ].
        exists x, r1, y, r2. repeat split.
        simpl length in Hp0. rewrite <- Nat.succ_min_distr in Hp0.
        now apply affix_scan_zero in Hp0. }
      destruct Hheads as (x & r1 & y & r2 & H1 & H2 & Hxy).
      assert (Hno : CommonOverlap.to_bool
                      (CommonOverlap.make (Ascii.substr input1 0 (S s'))
                                          (Ascii.substr input2 0 (S s'))) = false).
      { unfold CommonOverlap.make, CommonOverlap.construct, CommonOverlap.to_bool.
        rewrite !substr_characters, !Nat.sub_0_r.
        replace (Nat.min (Ascii.characters input1) (S s')) with (S s') by lia.
        replace (Nat.min (Ascii.characters input2) (S s')) with (S s') by lia.
        rewrite Nat.ltb_irrefl. cbn [negb orb CommonOverlap._skip].
        unfold Ascii.find. rewrite find_as_memmem.
        2:{ left. fold (Ascii.characters (Ascii.substr input2 0 (S s'))).
            rewrite substr_characters. lia. }
        rewrite !substr_data, H1, H2. cbn [skipn firstn].
        rewrite memmem_same_length; [ reflexivity | assumption | ].
        rewrite !length_firstn.
        unfold Ascii.characters, Buffer.bytes in Hs.
        unfold Buffer.data in H1, H2. rewrite H1, H2 in Hs. simpl in Hs. lia. }
      unfold Patch.overlap in Hc. rewrite Hno in Hc.
      rewrite !substr_characters, !Nat.sub_0_r in Hc.
      replace (Nat.min (Ascii.characters input1) (S s')) with (S s') in Hc by lia.
      replace (Nat.min (Ascii.characters input2) (S s')) with (S s') in Hc by lia.
      rewrite orb_diag in Hc.
      destruct s' as [ | s'']; cbn in Hc; subst ds'.
      * (* one common character at the end *)
        right; right. eexists; eexists; eexists. reflexivity.
      * left. eexists; eexists; split; reflexivity.
  - (* a common prefix leads the list *)
    cbn [Nat.ltb Nat.leb].
    destruct (Patch.compute _ _ _ _ _ _ _) as [ds' | | ] eqn:Hc; cbn [bind];
      try discriminate.
    intro H. inversion H as [Hds]. clear H.
    left. apply compute_extends in Hc. destruct Hc as [tail ->].
    subst ds. unfold StdList.emplace_back. cbn [app].
    destruct (affix_scan _ _ _ _); cbn [app]; eexists; eexists; split; reflexivity.
Qed.

Lemma returns_only_for_equal (fuel : nat) (limits : Limits.t) (input1 input2 : Ascii.t)
        (checklines : bool) (deadline : Deadline.t) (ds : Patch.diffs) :
  Patch.make_deadline fuel limits input1 input2 checklines deadline = Done ds ->
  Ascii.eqb input1 input2 = true.
Proof.
  intro H. destruct (Ascii.eqb input1 input2) eqn:Heq; [ reflexivity | exfalso ].
  destruct fuel as [ | fuel]; [ simpl in H; rewrite Heq in H; discriminate | ].
  rewrite make_deadline_unfold in H by assumption.
  destruct (Patch.assemble _ _ _ _ _ _) as [built | | ] eqn:Ha; cbn [bind] in H;
    try discriminate.
  apply assemble_shapes in Ha.
  destruct Ha as [(e & l & -> & He) | [-> | (a & b & c & ->)]].
  - rewrite optimize_equal_first in H by assumption. discriminate.
  - rewrite optimize_lone_insert in H. discriminate.
  - rewrite optimize_spins_after_edit in H. discriminate.
Qed.




(** X1: every patch the public constructor hands to its caller comes from
    the first branch: the texts compare equal and the patch has at most
    one Diff.  No pair of texts that differ gets a patch. *)
Lemma Patch_returned_is_identity (fuel : nat) (limits : Limits.t) (input1 input2 : Ascii.t)
      (checklines : bool) (clock0 clock1 : Z) (ds : Patch.diffs) :
  Patch.make fuel limits input1 input2 checklines clock0 clock1 = Done ds ->
  Ascii.eqb input1 input2 = true
  /\ ds = (if Ascii.bytes input1 =? 0 then []
           else [Diff.make EQUAL (Ascii.buffer input1)])
  /\ Specified.adjacent_same ds = false.
Proof.
  unfold Patch.make. intro H.
  pose proof (returns_only_for_equal _ _ _ _ _ _ _ H) as Heq.
  split; [ exact Heq | ].
  destruct fuel; simpl in H; rewrite Heq in H;
    destruct (Ascii.bytes input1 =? 0); inversion H; subst; auto.
Qed.

Lemma Patch_returned_is_identity_witness :
  Ascii.eqb (text "daar") (text "daar") = true
  /\ [Diff.make EQUAL (Ascii.buffer (text "daar"))]
     = (if Ascii.bytes (text "daar") =? 0 then []
        else [Diff.make EQUAL (Ascii.buffer (text "daar"))]).
Proof.
  destruct (Patch_returned_is_identity
              0 Limits.default (text "daar") (text "daar") true 0 0
              [Diff.make EQUAL (Ascii.buffer (text "daar"))] eq_refl)
    as (Heq & Hds & _).
  split; [ exact Heq | exact Hds ].
Defined.

(** ** Texts whose sizes differ by a multiple of 2^32

    [Buffer::compare] returns the difference of the two sizes through an
    [int].  When one text is the start of the other and 2^32 bytes
    shorter, the difference is cut down to 0, the texts compare equal,
    and the constructor answers with the single Diff EQUAL(text1). *)

Lemma memcmp_prefix (a b : list byte) : memcmp a (a ++ b) (length a) = 0%Z.
Proof.
  induction a as [ | x a IH]; simpl; [ reflexivity | ].
  now rewrite byte_ltb_irrefl.
Qed.

(** X2: [Buffer::compare] cut down to 32 bits, seen from the constructor: a
    text and the same text with 2^32 more bytes behind it compare equal,
    so the constructor answers with the one Diff EQUAL(text1), from
    which text2 cannot be read back. *)
Lemma Patch_equal_up_to_size_wrap (fuel : nat) (limits : Limits.t) (T U : list byte)
      (x : byte) (checklines : bool) (clock0 clock1 : Z) :
  Z.of_nat (length U) = (2 ^ 32)%Z ->
  Patch.make fuel limits (Ascii.make (x :: T)) (Ascii.make (x :: T ++ U))
             checklines clock0 clock1
  = Done [Diff.mk EQUAL (Ascii.make (x :: T))]
  /\ Specified.concat_without DELETE [Diff.mk EQUAL (Ascii.make (x :: T))] <> x :: T ++ U.
Proof.
  intro HU.
  assert (Heq : Ascii.eqb (Ascii.make (x :: T)) (Ascii.make (x :: T ++ U)) = true).
  { unfold Ascii.eqb, Ascii.compare, Buffer.compare, Buffer.bytes, Ascii.make, Buffer.make.
    cbn [Buffer._data].
    change (x :: T ++ U) with ((x :: T) ++ U).
    rewrite length_app, Nat.min_l by lia.
    rewrite memcmp_prefix. cbn [Z.eqb negb orb].
    destruct (Nat.eqb_spec (length (x :: T)) (length (x :: T) + length U)) as [Hbad | _];
      [ lia | ].
    rewrite Nat2Z.inj_add, HU.
    replace (Z.of_nat (length (x :: T)) - (Z.of_nat (length (x :: T)) + 2 ^ 32))%Z
      with (- 2 ^ 32)%Z by lia.
    reflexivity. }
  split.
  - unfold Patch.make. destruct fuel; simpl; rewrite Heq; reflexivity.
  - unfold Specified.concat_without; simpl. rewrite app_nil_r.
    intro Hbad. injection Hbad as Hbad.
    apply (f_equal (@length byte)) in Hbad. rewrite length_app in Hbad. lia.
Qed.

Lemma Patch_equal_up_to_size_wrap_witness :
  Patch.make 0 Limits.default
             (Ascii.make ("a"%byte :: [])) 
             (Ascii.make ("a"%byte :: [] ++ repeat "b"%byte (Z.to_nat (2 ^ 32))))
             true 0 0
  = Done [Diff.mk EQUAL (Ascii.make ("a"%byte :: []))].
Proof.
  refine (proj1 (Patch_equal_up_to_size_wrap
                   0 Limits.default [] (repeat "b"%byte (Z.to_nat (2 ^ 32))) "a"%byte
                   true 0 0 _)).
  rewrite repeat_length. apply Z2Nat.id. apply Z.pow_nonneg. discriminate.
Defined.

(** * More of the code

    The rest of the headers: what the affix finders, the buffer
    operations, the overlap detector and the optimizer passes do on
    every input. *)

(** ** The affix finders *)

Lemma affix_scan_counts (m : nat) :
  forall (l1 l2 : list byte) (acc : nat),
  exists k : nat,
    affix_scan m l1 l2 acc = acc + k
    /\ k <= m /\ k <= length l1 /\ k <= length l2
    /\ firstn k l1 = firstn k l2
    /\ (k < m -> k < length l1 -> k < length l2 ->
        nth_error l1 k <> nth_error l2 k).
Proof.
  induction m as [ | m IH]; intros l1 l2 acc.
  - exists 0. simpl. repeat split; try lia.
  - simpl. destruct l1 as [ | x l1], l2 as [ | y l2];
      try (exists 0; simpl; repeat split; try lia; fail).
    destruct (Byte.eqb x y) eqn:Hxy; simpl.
    + apply Byte.byte_dec_bl in Hxy. subst y.
      destruct (IH l1 l2 (S acc)) as (k & Hk & Hm & H1 & H2 & Hf & Hmax).
      exists (S k). simpl. repeat split; try lia.
      * now rewrite Hf.
      * intros. apply Hmax; lia.
    + exists 0. simpl. repeat split; try lia.
      intros _ _ _ Heq. injection Heq as ->.
      rewrite Byte.byte_dec_lb in Hxy by reflexivity. discriminate.
Qed.

(** X3: the prefix [CommonPrefix] finds is no longer than either
    text, its buffer holds that many leading bytes of both texts, and
    when it stops short of the shorter text the two bytes behind it
    differ. *)
Theorem CommonPrefix_is_the_longest (input1 input2 : Ascii.t) :
  let p := CommonPrefix.make input1 input2 in
  CommonPrefix.characters p <= Nat.min (Ascii.characters input1) (Ascii.characters input2)
  /\ Buffer.data (CommonPrefix.buffer p)
     = firstn (CommonPrefix.characters p) (Buffer.data input1)
  /\ Buffer.data (CommonPrefix.buffer p)
     = firstn (CommonPrefix.characters p) (Buffer.data input2)
  /\ CommonPrefix.bytes p = CommonPrefix.characters p
  /\ (CommonPrefix.characters p < Nat.min (Ascii.characters input1) (Ascii.characters input2) ->
      nth_error (Buffer.data input1) (CommonPrefix.characters p)
      <> nth_error (Buffer.data input2) (CommonPrefix.characters p)).
Proof.
  intro p.
  destruct (affix_scan_counts
              (Nat.min (Ascii.characters input1) (Ascii.characters input2))
              (Ascii.begin_ input1) (Ascii.begin_ input2) 0)
    as (k & Hk & Hm & H1 & H2 & Hf & Hmax).
  assert (Hp : CommonPrefix.characters p = k) by exact Hk.
  assert (Hb : Buffer.data (CommonPrefix.buffer p) = firstn k (Buffer.data input1)).
  { unfold CommonPrefix.buffer, Ascii.buffer_part. rewrite part_size_data.
    fold (CommonPrefix.characters p). now rewrite Hp. }
  rewrite Hp. repeat split.
  - exact Hm.
  - exact Hb.
  - rewrite Hb. exact Hf.
  - unfold CommonPrefix.bytes, Buffer.bytes. fold (Buffer.data (CommonPrefix.buffer p)).
    rewrite Hb, length_firstn. unfold Ascii.begin_ in H1. lia.
  - intro Hlt. apply Hmax; unfold Ascii.characters, Buffer.bytes, Ascii.begin_, Buffer.data in *; lia.
Qed.

Lemma skipn_as_rev_firstn (n : nat) (l : list byte) :
  n <= length l -> skipn (length l - n) l = rev (firstn n (rev l)).
Proof.
  intro Hn. rewrite firstn_rev, rev_involutive. reflexivity.
Qed.

(** X4: the suffix [CommonSuffix] finds is no longer than either
    text, its buffer holds that many trailing bytes of both texts, and
    when it stops short of the shorter text the two bytes before it
    differ. *)
Theorem CommonSuffix_is_the_longest (input1 input2 : Ascii.t) :
  let s := CommonSuffix.make input1 input2 in
  let n := CommonSuffix.characters s in
  n <= Nat.min (Ascii.characters input1) (Ascii.characters input2)
  /\ Buffer.data (CommonSuffix.buffer s)
     = skipn (Ascii.characters input1 - n) (Buffer.data input1)
  /\ Buffer.data (CommonSuffix.buffer s)
     = skipn (Ascii.characters input2 - n) (Buffer.data input2)
  /\ CommonSuffix.bytes s = n
  /\ (n < Nat.min (Ascii.characters input1) (Ascii.characters input2) ->
      nth_error (Buffer.data input1) (Ascii.characters input1 - S n)
      <> nth_error (Buffer.data input2) (Ascii.characters input2 - S n)).
Proof.
  intros s n.
  destruct (affix_scan_counts
              (Nat.min (Ascii.characters input1) (Ascii.characters input2))
              (Ascii.rbegin input1) (Ascii.rbegin input2) 0)
    as (k & Hk & Hm & H1 & H2 & Hf & Hmax).
  assert (Hn : n = k) by exact Hk.
  unfold Ascii.rbegin in *. rewrite length_rev in H1, H2.
  unfold Ascii.characters, Buffer.bytes in *. fold (Buffer.data input1) in *.
  fold (Buffer.data input2) in *.
  assert (Hb : Buffer.data (CommonSuffix.buffer s)
               = skipn (length (Buffer.data input1) - k) (Buffer.data input1)).
  { unfold CommonSuffix.buffer, Ascii.buffer_part. rewrite part_size_data.
    fold (CommonSuffix.characters s). fold n. rewrite Hn.
    unfold s, CommonSuffix.make, Ascii.characters, Buffer.bytes; cbn [CommonSuffix._input].
    fold (Buffer.data input1).
    apply firstn_all2. rewrite length_skipn. lia. }
  rewrite Hn. repeat split.
  - exact Hm.
  - exact Hb.
  - rewrite Hb. rewrite !skipn_as_rev_firstn by assumption. now rewrite Hf.
  - unfold CommonSuffix.bytes, Buffer.bytes. fold (Buffer.data (CommonSuffix.buffer s)).
    rewrite Hb, length_skipn. lia.
  - intro Hlt. specialize (Hmax Hlt).
    rewrite !length_rev in Hmax.
    rewrite !nth_error_rev in Hmax.
    destruct (Nat.ltb_spec k (length (Buffer.data input1))) as [Ha | Ha]; [ | lia ].
    destruct (Nat.ltb_spec k (length (Buffer.data input2))) as [Hb' | Hb']; [ | lia ].
    apply Hmax; lia.
Qed.

(** ** Comparing and searching buffers *)

Lemma byte_ltb_total (x y : byte) :
  byte_ltb x y = false -> byte_ltb y x = false -> x = y.
Proof.
  unfold byte_ltb. intros H1 H2.
  apply N.ltb_ge in H1, H2.
  assert (Heq : Byte.to_N x = Byte.to_N y) by lia.
  apply (f_equal Byte.of_N) in Heq. rewrite !Byte.of_to_N in Heq.
  now injection Heq.
Qed.

Lemma memcmp_zero (n : nat) :
  forall a b : list byte,
    n <= length a -> n <= length b ->
    (memcmp a b n = 0%Z <-> firstn n a = firstn n b).
Proof.
  induction n as [ | n IH]; intros a b Ha Hb.
  - destruct a; split; reflexivity.
  - destruct a as [ | x a]; [ simpl in Ha; lia | ].
    destruct b as [ | y b]; [ simpl in Hb; lia | ].
    simpl in Ha, Hb. simpl.
    destruct (byte_ltb x y) eqn:Hxy.
    + split; [ discriminate | ].
      intro H. injection H as -> _. rewrite byte_ltb_irrefl in Hxy. discriminate.
    + destruct (byte_ltb y x) eqn:Hyx.
      * split; [ discriminate | ].
        intro H. injection H as -> _. rewrite byte_ltb_irrefl in Hyx. discriminate.
      * rewrite (byte_ltb_total x y Hxy Hyx).
        rewrite IH by lia. split; [ now intros -> | now intro H; injection H ].
Qed.

Lemma int_of_size_difference (d : Z) :
  (Z.abs d < 2 ^ 32)%Z -> to_int (to_size_t d) = 0%Z -> d = 0%Z.
Proof.
  unfold to_int, to_size_t, wrap_signed, wrap_unsigned.
  change (2 ^ (32 - 1))%Z with 2147483648%Z.
  change (2 ^ 32)%Z with 4294967296%Z.
  change (2 ^ 64)%Z with 18446744073709551616%Z.
  intros Hd H. Z.div_mod_to_equations. lia.
Qed.

(** X5: for two buffers whose sizes are less than 2^32 apart,
    [compare] returns 0, [operator==] holds and [operator!=] fails
    exactly when they hold the same bytes; whether either buffer owns
    its memory plays no part. *)
Theorem Buffer_compare_zero_iff_same_bytes (b that : Buffer.t) :
  (Z.abs (Z.of_nat (Buffer.bytes b) - Z.of_nat (Buffer.bytes that)) < 2 ^ 32)%Z ->
  (Buffer.compare b that = 0%Z <-> Buffer.data b = Buffer.data that)
  /\ (Buffer.eqb b that = true <-> Buffer.data b = Buffer.data that)
  /\ (Buffer.neqb b that = true <-> Buffer.data b <> Buffer.data that).
Proof.
  intro Hclose.
  assert (Hcmp : Buffer.compare b that = 0%Z <-> Buffer.data b = Buffer.data that).
  { unfold Buffer.compare, Buffer.bytes, Buffer.data in *.
    set (a := Buffer._data b) in *. set (c := Buffer._data that) in *.
    pose proof (memcmp_zero (Nat.min (length a) (length c)) a c
                            (Nat.le_min_l _ _) (Nat.le_min_r _ _)) as Hm.
    destruct (Z.eqb_spec (memcmp a c (Nat.min (length a) (length c))) 0) as [Hz | Hnz];
      cbn [negb orb].
    - destruct (Nat.eqb_spec (length a) (length c)) as [Hlen | Hlen].
      + rewrite Hz. split; [ intros _ | reflexivity ].
        apply Hm in Hz. rewrite Hlen, Nat.min_id in Hz.
        rewrite <- (firstn_all a), <- (firstn_all c). now rewrite Hlen at 1.
      + split.
        * intro Hwrap. exfalso.
          apply (int_of_size_difference _ Hclose) in Hwrap. lia.
        * intro Heq. rewrite Heq in Hlen. now contradiction Hlen.
    - split; [ intro H; contradiction | ].
      intro Heq. exfalso. apply Hnz. apply Hm. now rewrite Heq. }
  split; [ exact Hcmp | ].
  unfold Buffer.eqb, Buffer.neqb. rewrite <- !Hcmp.
  destruct (Z.eqb_spec (Buffer.compare b that) 0) as [Hz | Hnz]; cbn [negb];
    intuition (try discriminate; try congruence).
Qed.

Lemma Buffer_compare_zero_iff_same_bytes_witness :
  Buffer.eqb (Buffer.make (bytes_of "abc") false) (Buffer.make (bytes_of "abc") true) = true.
Proof.
  apply (Buffer_compare_zero_iff_same_bytes
           (Buffer.make (bytes_of "abc") false) (Buffer.make (bytes_of "abc") true)).
  - vm_compute. reflexivity.
  - reflexivity.
Defined.

Lemma starts_with_iff (needle : list byte) :
  forall hay : list byte,
    starts_with needle hay = true <-> exists rest : list byte, hay = needle ++ rest.
Proof.
  induction needle as [ | x needle IH]; intro hay; simpl.
  - split; [ intros _; now exists hay | reflexivity ].
  - destruct hay as [ | y hay].
    + split; [ discriminate | intros [rest H]; discriminate ].
    + rewrite andb_true_iff, IH. split.
      * intros [Hxy [rest ->]]. apply Byte.byte_dec_bl in Hxy. subst. now exists rest.
      * intros [rest H]. injection H as -> ->. split; [ now apply Byte.byte_dec_lb | now exists rest ].
Qed.

Lemma memmem_found (hay : list byte) :
  forall (needle : list byte) (k : nat),
    memmem hay needle = Some k ->
    exists pre post : list byte,
      hay = pre ++ needle ++ post /\ length pre = k
      /\ forall pre' post' : list byte, hay = pre' ++ needle ++ post' -> k <= length pre'.
Proof.
  induction hay as [ | y hay IH]; intros needle k; simpl.
  - destruct (starts_with needle []) eqn:Hs; [ | discriminate ].
    intro H. injection H as <-. apply starts_with_iff in Hs. destruct Hs as [rest Hs].
    exists [], rest. repeat split; [ exact Hs | intros; lia ].
  - destruct (starts_with needle (y :: hay)) eqn:Hs.
    + intro H. injection H as <-. apply starts_with_iff in Hs. destruct Hs as [rest Hs].
      exists [], rest. repeat split; [ exact Hs | intros; lia ].
    + destruct (memmem hay needle) as [k' | ] eqn:Hm; simpl; [ | discriminate ].
      intro H. injection H as <-.
      destruct (IH needle k' Hm) as (pre & post & Hhay & Hlen & Hfirst).
      exists (y :: pre), post. repeat split.
      * simpl. now rewrite Hhay.
      * simpl. now rewrite Hlen.
      * intros pre' post' H'. destruct pre' as [ | z pre'].
        -- exfalso. simpl in H'.
           assert (starts_with needle (y :: hay) = true)
             by (apply starts_with_iff; now exists post').
           congruence.
        -- simpl in H'. injection H' as _ H'. apply Hfirst in H'. simpl. lia.
Qed.

Lemma memmem_not_found (hay : list byte) :
  forall needle : list byte,
    memmem hay needle = None ->
    forall pre post : list byte, hay <> pre ++ needle ++ post.
Proof.
  induction hay as [ | y hay IH]; intros needle; simpl.
  - destruct (starts_with needle []) eqn:Hs; [ discriminate | ].
    intros _ pre post H. destruct pre; [ | discriminate ].
    simpl in H. assert (starts_with needle [] = true)
      by (apply starts_with_iff; now exists post). congruence.
  - destruct (starts_with needle (y :: hay)) eqn:Hs; [ discriminate | ].
    destruct (memmem hay needle) eqn:Hm; simpl; [ discriminate | ].
    intros _ pre post H. destruct pre as [ | z pre].
    + simpl in H. assert (starts_with needle (y :: hay) = true)
        by (apply starts_with_iff; now exists post). congruence.
    + simpl in H. injection H as _ H. now apply (IH needle Hm pre post).
Qed.

(** X6: unless the buffer and the needle are both empty, [find]
    returns -1 exactly when the other buffer occurs nowhere in this
    one, and otherwise the offset of its first occurrence.  In the
    buffer [Buffer()] builds nothing is found, not even an empty
    needle. *)
Theorem Buffer_find_first_occurrence (b that : Buffer.t) :
  0 < Buffer.bytes b \/ 0 < Buffer.bytes that ->
  Buffer.find Buffer.empty that = (-1)%Z
  /\ ((Buffer.find b that = (-1)%Z
       /\ forall pre post : list byte, Buffer.data b <> pre ++ Buffer.data that ++ post)
      \/ (exists pre post : list byte,
             Buffer.find b that = Z.of_nat (length pre)
             /\ Buffer.data b = pre ++ Buffer.data that ++ post
             /\ forall pre' post' : list byte,
                  Buffer.data b = pre' ++ Buffer.data that ++ post' ->
                  length pre <= length pre')).
Proof.
  intro Hsome. split; [ reflexivity | ].
  rewrite (find_as_memmem b that Hsome).
  destruct (memmem (Buffer.data b) (Buffer.data that)) as [k | ] eqn:Hm.
  - right. destruct (memmem_found _ _ _ Hm) as (pre & post & Hhay & Hlen & Hfirst).
    exists pre, post. subst k. auto.
  - left. split; [ reflexivity | now apply memmem_not_found ].
Qed.

Lemma Buffer_find_first_occurrence_witness :
  (0 < Buffer.bytes (Buffer.make (bytes_of "abcabc") false)
   \/ 0 < Buffer.bytes (Buffer.make (bytes_of "bc") true))
  /\ Buffer.find Buffer.empty (Buffer.make (bytes_of "bc") true) = (-1)%Z.
Proof.
  assert (Hsome : 0 < Buffer.bytes (Buffer.make (bytes_of "abcabc") false)
                  \/ 0 < Buffer.bytes (Buffer.make (bytes_of "bc") true))
    by (left; vm_compute; lia).
  split; [ exact Hsome | ].
  exact (proj1 (Buffer_find_first_occurrence
                  (Buffer.make (bytes_of "abcabc") false)
                  (Buffer.make (bytes_of "bc") true) Hsome)).
Defined.

(** X7: unless the buffer and the needle are both empty, for a
    position inside the buffer [find(that, pos)] returns -1 exactly
    when the other buffer does not occur at or behind [pos], and
    otherwise the offset, counted from the start of the buffer, of its
    first occurrence at or behind [pos].  In the buffer [Buffer()]
    builds nothing is found from position 0. *)
Theorem Buffer_find_from_first_occurrence_behind (b that : Buffer.t) (pos : nat) :
  0 < Buffer.bytes b \/ 0 < Buffer.bytes that ->
  pos <= Buffer.bytes b ->
  Buffer.find_from Buffer.empty that 0 = Done (-1)%Z
  /\ ((Buffer.find_from b that pos = Done (-1)%Z
       /\ forall pre post : list byte,
            Buffer.data b = pre ++ Buffer.data that ++ post -> length pre < pos)
      \/ (exists pre post : list byte,
             Buffer.find_from b that pos = Done (Z.of_nat (length pre))
             /\ Buffer.data b = pre ++ Buffer.data that ++ post
             /\ pos <= length pre
             /\ forall pre' post' : list byte,
                  Buffer.data b = pre' ++ Buffer.data that ++ post' ->
                  pos <= length pre' -> length pre <= length pre')).
Proof.
  intros Hsome Hpos. split; [ reflexivity | ].
  rewrite (find_from_as_memmem b that pos Hsome).
  destruct (Nat.ltb_spec (Buffer.bytes b) pos) as [Hbad | _]; [ lia | ].
  assert (Hbehind : forall pre' post' : list byte,
             Buffer.data b = pre' ++ Buffer.data that ++ post' ->
             pos <= length pre' ->
             skipn pos (Buffer.data b) = skipn pos pre' ++ Buffer.data that ++ post').
  { intros pre' post' H' Hle. rewrite H', skipn_app.
    replace (pos - length pre') with 0 by lia. reflexivity. }
  destruct (memmem (skipn pos (Buffer.data b)) (Buffer.data that)) as [k | ] eqn:Hm.
  - right. destruct (memmem_found _ _ _ Hm) as (pre & post & Hhay & Hlen & Hfirst).
    exists (firstn pos (Buffer.data b) ++ pre), post.
    assert (Hl : length (firstn pos (Buffer.data b) ++ pre) = pos + k).
    { rewrite length_app, length_firstn. unfold Buffer.bytes, Buffer.data in *. lia. }
    rewrite Hl. repeat split.
    + rewrite <- app_assoc, <- Hhay. symmetry. apply firstn_skipn.
    + lia.
    + intros pre' post' H' Hle. apply Hbehind in H'; [ | exact Hle ].
      apply Hfirst in H'. rewrite length_skipn in H'. lia.
  - left. split; [ reflexivity | ].
    intros pre post H. destruct (Nat.lt_ge_cases (length pre) pos) as [Hlt | Hge];
      [ exact Hlt | exfalso ].
    apply Hbehind in H; [ | exact Hge ].
    exact (memmem_not_found _ _ Hm _ _ H).
Qed.

Lemma Buffer_find_from_first_occurrence_behind_witness :
  (0 < Buffer.bytes (Buffer.make (bytes_of "abcabc") false)
   \/ 0 < Buffer.bytes (Buffer.make (bytes_of "bc") false))
  /\ 2 <= Buffer.bytes (Buffer.make (bytes_of "abcabc") false)
  /\ Buffer.find_from Buffer.empty (Buffer.make (bytes_of "bc") false) 0 = Done (-1)%Z.
Proof.
  assert (Hsome : 0 < Buffer.bytes (Buffer.make (bytes_of "abcabc") false)
                  \/ 0 < Buffer.bytes (Buffer.make (bytes_of "bc") false))
    by (left; vm_compute; lia).
  assert (Hpos : 2 <= Buffer.bytes (Buffer.make (bytes_of "abcabc") false))
    by (vm_compute; lia).
  split; [ exact Hsome | ]. split; [ exact Hpos | ].
  exact (proj1 (Buffer_find_from_first_occurrence_behind
                  (Buffer.make (bytes_of "abcabc") false)
                  (Buffer.make (bytes_of "bc") false) 2 Hsome Hpos)).
Defined.

(** Which of the two texts the constructor takes for the short and
    for the long one, and what it notes in [_text1long]. *)
Lemma CommonOverlap_construct_texts (same_object : bool) (text1 text2 : Ascii.t) :
  (same_object = true -> text1 = text2) ->
  let o := CommonOverlap.construct same_object text1 text2 in
  let text2_shorter := Ascii.characters text2 <? Ascii.characters text1 in
  CommonOverlap._shorttext o = (if text2_shorter then text2 else text1)
  /\ CommonOverlap._longtext o = (if text2_shorter then text1 else text2)
  /\ CommonOverlap._text1long o = text2_shorter || same_object
  /\ CommonOverlap._skip o
     = Buffer.find (CommonOverlap._longtext o) (CommonOverlap._shorttext o).
Proof.
  intros Hsame o text2_shorter. unfold o, CommonOverlap.construct.
  cbn [CommonOverlap._shorttext CommonOverlap._longtext CommonOverlap._text1long
       CommonOverlap._skip].
  fold text2_shorter.
  destruct same_object.
  - assert (Hno : text2_shorter = false).
    { unfold text2_shorter. rewrite (Hsame eq_refl). apply Nat.ltb_irrefl. }
    rewrite Hno. repeat split.
  - destruct text2_shorter; repeat split.
Qed.

(** X8: [CommonOverlap] on two texts that are not both empty.  It
    takes the text with fewer characters as the short one; it reports
    DELETE exactly when text2 is the shorter, or when both arguments
    are one object; it is true exactly when the short text occurs in
    the long one, and then [prefix()] and [suffix()] cut the long text
    at the first occurrence, so that [suffix()] starts with the short
    text. *)
Theorem CommonOverlap_splits_at_the_first_occurrence
        (same_object : bool) (text1 text2 : Ascii.t) :
  let o := CommonOverlap.construct same_object text1 text2 in
  (same_object = true -> text1 = text2) ->
  0 < Ascii.characters text1 \/ 0 < Ascii.characters text2 ->
  (Z.of_nat (Ascii.characters text1) < 2 ^ 64)%Z ->
  (Z.of_nat (Ascii.characters text2) < 2 ^ 64)%Z ->
  Ascii.characters (CommonOverlap._shorttext o) <= Ascii.characters (CommonOverlap._longtext o)
  /\ (CommonOverlap.operation o = DELETE
      <-> Ascii.characters text2 < Ascii.characters text1 \/ same_object = true)
  /\ (CommonOverlap.to_bool o = true
      <-> exists pre post : list byte,
            Buffer.data (CommonOverlap._longtext o)
            = pre ++ Buffer.data (CommonOverlap._shorttext o) ++ post)
  /\ (CommonOverlap.to_bool o = true ->
      Buffer.data (CommonOverlap._longtext o)
      = Buffer.data (CommonOverlap.prefix o) ++ Buffer.data (CommonOverlap.suffix o)
      /\ (exists post : list byte,
             Buffer.data (CommonOverlap.suffix o)
             = Buffer.data (CommonOverlap.buffer o) ++ post)
      /\ forall pre' post' : list byte,
           Buffer.data (CommonOverlap._longtext o)
           = pre' ++ Buffer.data (CommonOverlap._shorttext o) ++ post' ->
           Buffer.bytes (CommonOverlap.prefix o) <= length pre').
Proof.
  intros o Hsame Hsome H1 H2.
  destruct (CommonOverlap_construct_texts same_object text1 text2 Hsame)
    as (Hshort & Hlong & Hflag & Hskip).
  fold o in Hshort, Hlong, Hflag, Hskip.
  set (long := CommonOverlap._longtext o) in *.
  set (short := CommonOverlap._shorttext o) in *.
  assert (Hsizes : Ascii.characters short <= Ascii.characters long
                   /\ 0 < Ascii.characters long
                   /\ (Z.of_nat (Ascii.characters long) < 2 ^ 64)%Z).
  { rewrite Hshort, Hlong.
    destruct (Nat.ltb_spec (Ascii.characters text2) (Ascii.characters text1));
      repeat split; try assumption; lia. }
  destruct Hsizes as (Hle & Hpos & Hfits).
  split; [ exact Hle | ].
  split.
  { unfold CommonOverlap.operation. rewrite Hflag.
    destruct (Nat.ltb_spec (Ascii.characters text2) (Ascii.characters text1)) as [Hlt | Hge];
      destruct same_object; cbn [orb]; split; intro H;
      try reflexivity; try discriminate H; auto.
    destruct H as [H | H]; [ lia | discriminate H ]. }
  unfold CommonOverlap.to_bool. rewrite Hskip.
  rewrite (find_as_memmem long short (or_introl Hpos)).
  destruct (memmem (Buffer.data long) (Buffer.data short)) as [k | ] eqn:Hm.
  - destruct (memmem_found _ _ _ Hm) as (pre & post & Hhay & Hlen & Hfirst).
    split.
    + split; [ intros _; eauto | intros _; apply Z.leb_le; lia ].
    + intros _.
      assert (Hpre : k <= Ascii.characters long).
      { unfold Ascii.characters, Buffer.bytes. fold (Buffer.data long).
        rewrite Hhay, length_app. lia. }
      unfold CommonOverlap.prefix, CommonOverlap.suffix, CommonOverlap.buffer,
        Ascii.buffer_part, Ascii.buffer_from, Ascii.buffer.
      fold long. fold short.
      rewrite Hskip, (find_as_memmem long short (or_introl Hpos)), Hm.
      rewrite to_size_t_small by lia.
      rewrite part_size_bytes, part_size_data, part_data. cbn [skipn].
      rewrite Hhay. subst k.
      rewrite firstn_app, Nat.sub_diag, firstn_all. cbn [firstn]. rewrite app_nil_r.
      rewrite skipn_app, Nat.sub_diag, skipn_all. cbn [skipn app].
      repeat split.
      * now exists post.
      * intros pre' post' H'. rewrite <- Hhay in H'. apply Hfirst in H'.
        rewrite Nat.sub_0_r. lia.
  - split.
    + split; [ discriminate | ].
      intros (pre & post & H). now apply (memmem_not_found _ _ Hm) in H.
    + discriminate.
Qed.

Lemma CommonOverlap_splits_at_the_first_occurrence_witness :
  CommonOverlap.operation (CommonOverlap.construct true (text "bc") (text "bc")) = DELETE
  /\ Buffer.data (CommonOverlap.suffix (CommonOverlap.construct true (text "bc") (text "bc")))
     = bytes_of "bc".
Proof.
  assert (Hsame : true = true -> text "bc" = text "bc") by reflexivity.
  assert (Hsome : 0 < Ascii.characters (text "bc") \/ 0 < Ascii.characters (text "bc"))
    by (left; vm_compute; lia).
  assert (Hfits : (Z.of_nat (Ascii.characters (text "bc")) < 2 ^ 64)%Z) by reflexivity.
  destruct (CommonOverlap_splits_at_the_first_occurrence
              true (text "bc") (text "bc") Hsame Hsome Hfits Hfits)
    as (_ & Hop & _ & _).
  split; [ apply Hop; now right | reflexivity ].
Defined.

Lemma concat_without_spans (op : Operation) (ds : list Diff.t) :
  Specified.concat_without op ds
  = concat (map snd (filter (fun s => negb (Operation_eqb (fst s) op))
                            (Specified.spans ds))).
Proof.
  unfold Specified.concat_without, Specified.spans.
  induction ds as [ | d ds IH]; [ reflexivity | ].
  cbn [map filter]. unfold Specified.span at 1. cbn [fst].
  destruct (negb (Operation_eqb (Diff.operation d) op)); cbn [map concat snd];
    now rewrite IH.
Qed.

(** X9: [overlap] on two texts with characters, as [compute] calls
    it.  When the shorter text occurs in the longer one as
    [pre ++ short ++ post], [overlap] appends the three Diffs
    [op pre; EQUAL short; op (short ++ post)].  Read back, they give the
    shorter text as it is and the longer text with the shorter one
    twice: the longer text is not reconstructed. *)
Theorem overlap_repeats_the_shorter_text (text1 text2 : Ascii.t) (_diffs : Patch.diffs) :
  let o := CommonOverlap.make text1 text2 in
  0 < Ascii.characters text1 ->
  0 < Ascii.characters text2 ->
  (Z.of_nat (Ascii.characters text1) < 2 ^ 64)%Z ->
  (Z.of_nat (Ascii.characters text2) < 2 ^ 64)%Z ->
  CommonOverlap.to_bool o = true ->
  exists (pre post : list byte) (d1 d2 d3 : Diff.t),
    Buffer.data (CommonOverlap._longtext o)
    = pre ++ Buffer.data (CommonOverlap._shorttext o) ++ post
    /\ Patch.overlap text1 text2 _diffs = (_diffs ++ [d1; d2; d3], true)
    /\ Specified.spans [d1; d2; d3]
       = [ (CommonOverlap.operation o, pre);
           (EQUAL, Buffer.data (CommonOverlap._shorttext o));
           (CommonOverlap.operation o, Buffer.data (CommonOverlap._shorttext o) ++ post) ]
    /\ Specified.concat_without (CommonOverlap.operation o) [d1; d2; d3]
       = Buffer.data (CommonOverlap._shorttext o)
    /\ Specified.concat_without
         (if CommonOverlap._text1long o then INSERT else DELETE) [d1; d2; d3]
       = pre ++ Buffer.data (CommonOverlap._shorttext o)
             ++ Buffer.data (CommonOverlap._shorttext o) ++ post
    /\ Specified.concat_without
         (if CommonOverlap._text1long o then INSERT else DELETE) [d1; d2; d3]
       <> Buffer.data (CommonOverlap._longtext o).
Proof.
  intros o Hpos1 Hpos2 H1 H2 Hfound.
  assert (Hsep : false = true -> text1 = text2) by discriminate.
  destruct (CommonOverlap_construct_texts false text1 text2 Hsep)
    as (Hshort & Hlong & _ & Hskip).
  fold (CommonOverlap.make text1 text2) in Hshort, Hlong, Hskip.
  fold o in Hshort, Hlong, Hskip.
  set (long := CommonOverlap._longtext o) in *.
  set (short := CommonOverlap._shorttext o) in *.
  assert (Hsizes : 0 < Ascii.characters short /\ 0 < Ascii.characters long
                   /\ (Z.of_nat (Ascii.characters long) < 2 ^ 64)%Z).
  { rewrite Hshort, Hlong.
    destruct (Ascii.characters text2 <? Ascii.characters text1); repeat split; assumption. }
  destruct Hsizes as (Hshortpos & Hlongpos & Hfits).
  assert (Hm : exists k : nat, memmem (Buffer.data long) (Buffer.data short) = Some k
                               /\ CommonOverlap._skip o = Z.of_nat k).
  { unfold CommonOverlap.to_bool in Hfound. rewrite Hskip in *.
    rewrite (find_as_memmem long short (or_introl Hlongpos)) in *.
    destruct (memmem (Buffer.data long) (Buffer.data short)) as [k | ];
      [ now exists k | discriminate Hfound ]. }
  destruct Hm as (k & Hm & Hk0).
  destruct (memmem_found _ _ _ Hm) as (pre & post & Hhay & Hlen & _).
  assert (Hk : (Z.of_nat k < 2 ^ 64)%Z).
  { apply (f_equal (@length byte)) in Hhay. rewrite length_app in Hhay.
    unfold Ascii.characters, Buffer.bytes in Hfits. unfold Buffer.data in Hhay. lia. }
  destruct (overlap_emits text1 text2 k _diffs Hk0 Hk) as (d1 & d2 & d3 & Hrun & Hspans).
  fold o in Hspans. fold long in Hspans. fold short in Hspans.
  rewrite Hhay in Hspans. subst k.
  rewrite firstn_app, Nat.sub_diag, firstn_all in Hspans. cbn [firstn] in Hspans.
  rewrite app_nil_r in Hspans.
  rewrite skipn_app, Nat.sub_diag, skipn_all in Hspans. cbn [skipn app] in Hspans.
  exists pre, post, d1, d2, d3.
  split; [ exact Hhay | ].
  split; [ exact Hrun | ].
  split; [ exact Hspans | ].
  rewrite !concat_without_spans, Hspans. unfold CommonOverlap.operation.
  assert (Hboth : pre ++ Buffer.data short ++ Buffer.data short ++ post
                  <> Buffer.data long).
  { intro Hsame. rewrite Hhay in Hsame. apply (f_equal (@length byte)) in Hsame.
    rewrite !length_app in Hsame. unfold Ascii.characters, Buffer.bytes in Hshortpos.
    fold (Buffer.data short) in Hshortpos. lia. }
  destruct (CommonOverlap._text1long o);
    cbn [filter fst snd Operation_eqb negb map concat]; rewrite ?app_nil_r;
    (split; [ reflexivity | ]); (split; [ reflexivity | ]); exact Hboth.
Qed.

Lemma overlap_repeats_the_shorter_text_witness :
  exists (pre post : list byte) (d1 d2 d3 : Diff.t),
    Patch.overlap (text "abc") (text "b") [] = ([] ++ [d1; d2; d3], true)
    /\ Specified.concat_without INSERT [d1; d2; d3]
       = pre ++ bytes_of "b" ++ bytes_of "b" ++ post.
Proof.
  assert (Hpos1 : 0 < Ascii.characters (text "abc")) by (vm_compute; lia).
  assert (Hpos2 : 0 < Ascii.characters (text "b")) by (vm_compute; lia).
  destruct (overlap_repeats_the_shorter_text (text "abc") (text "b") [] Hpos1 Hpos2)
    as (pre & post & d1 & d2 & d3 & _ & Hrun & _ & _ & Hlong & _).
  - reflexivity.
  - reflexivity.
  - reflexivity.
  - exists pre, post, d1, d2, d3. split; [ exact Hrun | exact Hlong ].
Defined.

(** ** Growing and cutting buffers *)

Lemma shrink_data (b : Buffer.t) (size : nat) :
  Buffer.data (Buffer.shrink b size) = firstn (Buffer.bytes b - size) (Buffer.data b).
Proof.
  unfold Buffer.shrink, Buffer.bytes, Buffer.data.
  destruct (Nat.leb_spec (length (Buffer._data b)) size) as [Hle | Hgt].
  - replace (length (Buffer._data b) - size) with 0 by lia. reflexivity.
  - destruct (Nat.eqb_spec size 0) as [-> | Hsize].
    + rewrite Nat.sub_0_r. symmetry. apply firstn_all.
    + reflexivity.
Qed.

Lemma skip_data (b : Buffer.t) (size : nat) :
  Buffer.data (Buffer.skip b size) = skipn size (Buffer.data b).
Proof.
  unfold Buffer.skip, Buffer.bytes, Buffer.data.
  destruct (Nat.leb_spec (length (Buffer._data b)) size) as [Hle | Hgt].
  - symmetry. now apply skipn_all2.
  - destruct (Nat.eqb_spec size 0) as [-> | Hsize]; reflexivity.
Qed.

(** X10: [shrink] and [skip] by the size of what [append] or
    [prepend] added give the old bytes back, cutting by the old size
    leaves what was added, and [bytes()] adds up. *)
Theorem Buffer_cut_undoes_growth (b that : Buffer.t) :
  Buffer.data (Buffer.shrink (Buffer.append b that) (Buffer.bytes that)) = Buffer.data b
  /\ Buffer.data (Buffer.skip (Buffer.prepend b that) (Buffer.bytes that)) = Buffer.data b
  /\ Buffer.data (Buffer.skip (Buffer.append b that) (Buffer.bytes b)) = Buffer.data that
  /\ Buffer.data (Buffer.shrink (Buffer.prepend b that) (Buffer.bytes b)) = Buffer.data that
  /\ Buffer.bytes (Buffer.append b that) = Buffer.bytes b + Buffer.bytes that
  /\ Buffer.bytes (Buffer.prepend b that) = Buffer.bytes that + Buffer.bytes b.
Proof.
  rewrite !shrink_data, !skip_data.
  unfold Buffer.append, Buffer.prepend, Buffer.append_data, Buffer.prepend_data,
    Buffer.bytes, Buffer.data; cbn [Buffer._data].
  rewrite !length_app.
  repeat split.
  - rewrite Nat.add_sub, firstn_app, Nat.sub_diag, firstn_all. cbn [firstn].
    apply app_nil_r.
  - rewrite skipn_app, Nat.sub_diag, skipn_all. reflexivity.
  - rewrite skipn_app, Nat.sub_diag, skipn_all. reflexivity.
  - rewrite Nat.add_sub, firstn_app, Nat.sub_diag, firstn_all. cbn [firstn].
    apply app_nil_r.
Qed.

(** X11: [shrink(size)] keeps the first [bytes() - size] bytes and
    [skip(size)] drops the first [size] bytes, also when [size] is 0 or
    reaches the size of the buffer, where the buffer is left as it is
    or cleared. *)
Theorem Buffer_shrink_and_skip_cut (b : Buffer.t) (size : nat) :
  Buffer.data (Buffer.shrink b size) = firstn (Buffer.bytes b - size) (Buffer.data b)
  /\ Buffer.data (Buffer.skip b size) = skipn size (Buffer.data b)
  /\ Buffer.data (Buffer.shrink b size) ++ skipn (Buffer.bytes b - size) (Buffer.data b)
     = Buffer.data b
  /\ firstn size (Buffer.data b) ++ Buffer.data (Buffer.skip b size) = Buffer.data b
  /\ Buffer.bytes (Buffer.shrink b size) = Buffer.bytes b - size
  /\ Buffer.bytes (Buffer.skip b size) = Buffer.bytes b - size.
Proof.
  repeat split.
  - apply shrink_data.
  - apply skip_data.
  - rewrite shrink_data. apply firstn_skipn.
  - rewrite skip_data. apply firstn_skipn.
  - unfold Buffer.bytes at 1. fold (Buffer.data (Buffer.shrink b size)).
    rewrite shrink_data, length_firstn. unfold Buffer.bytes, Buffer.data. lia.
  - unfold Buffer.bytes at 1. fold (Buffer.data (Buffer.skip b size)).
    rewrite skip_data. apply length_skipn.
Qed.


(** ** [mergeUpdates] on every list *)

(** X13: [mergeUpdates] changes no list.  On the empty list it
    returns at once.  On a list that starts with an edit [updates] is
    set in the first round, and every EQUAL behind it leaves the
    [switch] through [if (updates != _diffs.end()) break], before the
    lines that merge.  On a list that starts with an EQUAL [updates] is
    still [end()] and the code calls [erase(end(), iter)]. *)
Theorem mergeUpdates_never_merges (fuel : nat) (d : Diff.t) (l : Patch.diffs) :
  length l <= fuel ->
  Patch.mergeUpdates fuel [] = Done []
  /\ Patch.mergeUpdates (S fuel) (d :: l)
     = (if Operation_eqb (Diff.operation d) EQUAL then Undefined else Done (d :: l)).
Proof.
  intro Hfuel. split.
  - unfold Patch.mergeUpdates. now rewrite while_done by reflexivity.
  - destruct (Operation_eqb (Diff.operation d) EQUAL) eqn:Hop.
    + apply mergeUpdates_equal_first. now destruct (Diff.operation d).
    + apply mergeUpdates_keeps_edits_first; [ | cbn [length]; lia ].
      intro Heq. rewrite Heq in Hop. discriminate Hop.
Qed.

Lemma mergeUpdates_never_merges_witness :
  length [diff_of DELETE "b"; diff_of INSERT "c"] <= 2
  /\ Patch.mergeUpdates 3 [diff_of DELETE "a"; diff_of DELETE "b"; diff_of INSERT "c"]
     = Done [diff_of DELETE "a"; diff_of DELETE "b"; diff_of INSERT "c"].
Proof.
  assert (H : length [diff_of DELETE "b"; diff_of INSERT "c"] <= 2) by (cbn [length]; lia).
  split; [ exact H | ].
  exact (proj2 (mergeUpdates_never_merges
                  2 (diff_of DELETE "a") [diff_of DELETE "b"; diff_of INSERT "c"] H)).
Defined.

(** ** [mergeEquals] *)

Section MergeEquals.

Import Patch StdList.

Lemma firstn_exact {A : Type} (a b : list A) : firstn (length a) (a ++ b) = a.
Proof. rewrite firstn_app, Nat.sub_diag, firstn_all. cbn. apply app_nil_r. Qed.

Lemma skipn_exact {A : Type} (a b : list A) : skipn (length a) (a ++ b) = b.
Proof. rewrite skipn_app, Nat.sub_diag, skipn_all. reflexivity. Qed.

Lemma at_position_inside (l : diffs) (i : nat) :
  i < length l -> at_position l i = Some i.
Proof. intro H. unfold at_position. now apply Nat.ltb_lt in H; rewrite H. Qed.

Lemma at_position_end (l : diffs) : at_position l (length l) = None.
Proof. unfold at_position. now rewrite Nat.ltb_irrefl. Qed.

Lemma list_sum_snoc (l : list nat) (n : nat) : list_sum (l ++ [n]) = list_sum l + n.
Proof. rewrite list_sum_app. simpl. lia. Qed.

Lemma mergeEquals_join_run (done run rest : diffs) (size : nat) :
  mergeEquals_join (done ++ run ++ rest) (Some (length done))
                   (at_position (done ++ run ++ rest) (length done + length run)) size
  = Done (done ++ Diff.make_join EQUAL size run :: rest,
          at_position (done ++ Diff.make_join EQUAL size run :: rest) (S (length done))).
Proof.
  unfold mergeEquals_join, emplace, range.
  assert (Hpos : position (done ++ run ++ rest)
                          (at_position (done ++ run ++ rest) (length done + length run))
                 = length done + length run).
  { unfold at_position, position.
    destruct (Nat.ltb_spec (length done + length run) (length (done ++ run ++ rest)))
      as [Hlt | Hge]; [ reflexivity | ].
    rewrite !length_app in *. lia. }
  rewrite Hpos. cbn [position].
  replace (length done + length run - length done) with (length run) by lia.
  rewrite skipn_exact, !firstn_exact.
  unfold erase_range.
  set (l' := done ++ Diff.make_join EQUAL size run :: run ++ rest).
  assert (Hfirst : position l' (after_emplace (Some (length done)) (Some (length done)))
                   = S (length done)).
  { cbn. now rewrite Nat.leb_refl. }
  assert (Hlast : position l' (after_emplace (Some (length done))
                     (at_position (done ++ run ++ rest) (length done + length run)))
                  = S (length done + length run)).
  { unfold at_position.
    destruct (Nat.ltb_spec (length done + length run) (length (done ++ run ++ rest)))
      as [Hlt | Hge]; cbn.
    - destruct (Nat.leb_spec (length done) (length done + length run)); [ reflexivity | lia ].
    - unfold l'. rewrite !length_app in *. cbn. rewrite !length_app. lia. }
  rewrite Hfirst, Hlast.
  destruct (Nat.leb_spec (S (length done)) (S (length done + length run))); [ | lia ].
  assert (Hl1 : firstn (S (length done)) l' = done ++ [Diff.make_join EQUAL size run]).
  { unfold l'. change (done ++ ?j :: run ++ rest) with (done ++ [j] ++ run ++ rest).
    rewrite app_assoc.
    replace (S (length done)) with (length (done ++ [Diff.make_join EQUAL size run]))
      by (rewrite length_app; simpl; lia).
    apply firstn_exact. }
  assert (Hl2 : skipn (S (length done + length run)) l' = rest).
  { unfold l'.
    change (done ++ ?j :: run ++ rest) with (done ++ ([j] ++ run) ++ rest).
    rewrite app_assoc.
    replace (S (length done + length run))
      with (length (done ++ [Diff.make_join EQUAL size run] ++ run))
      by (rewrite !length_app; simpl; lia).
    apply skipn_exact. }
  rewrite Hl1, Hl2. rewrite <- app_assoc. reflexivity.
Qed.

Lemma at_position_next (done run : diffs) (d : Diff.t) (rest : diffs) :
  at_position (done ++ run ++ d :: rest) (S (length done + length run))
  = at_position (done ++ (run ++ [d]) ++ rest) (length done + length (run ++ [d])).
Proof.
  rewrite <- (app_assoc run [d] rest). rewrite (length_app run [d]). simpl.
  now replace (length done + (length run + 1)) with (S (length done + length run)) by lia.
Qed.

Lemma mergeEquals_loop (rest : diffs) :
  forall (done run : diffs) (begin : iterator) (fuel : nat),
    Forall (fun d => Diff.operation d = EQUAL) run ->
    (run <> [] -> begin = Some (length done)) ->
    length rest <= fuel ->
    (st <- while fuel (fun st => negb (is_end (me_iter st))) mergeEquals_step
             (mk_equals (done ++ run ++ rest)
                        (at_position (done ++ run ++ rest) (length done + length run))
                        begin (list_sum (map Diff.bytes run)) (length run)) ;;
     mergeEquals_finish st)
    = Done (done ++ merged_equals run rest).
Proof.
  induction rest as [ | d rest IH]; intros done run begin fuel Hrun Hbegin Hfuel.
  - (* the loop is over *)
    rewrite app_nil_r. rewrite <- length_app, at_position_end.
    rewrite while_done by reflexivity. cbn [bind merged_equals].
    unfold mergeEquals_finish; cbn [me_count me_diffs me_begin me_size].
    destruct run as [ | d1 [ | d2 run]]; cbn [length Nat.ltb Nat.leb close_run];
      try reflexivity.
    rewrite Hbegin by discriminate.
    pose proof (mergeEquals_join_run done (d1 :: d2 :: run) []
                  (list_sum (map Diff.bytes (d1 :: d2 :: run)))) as Hj.
    rewrite !app_nil_r in Hj. rewrite <- length_app, at_position_end in Hj.
    unfold end_. rewrite Hj. reflexivity.
  - destruct fuel as [ | fuel]; [ simpl in Hfuel; lia | ]. simpl in Hfuel.
    assert (Hin : length done + length run < length (done ++ run ++ d :: rest)).
    { rewrite !length_app. simpl. lia. }
    rewrite (at_position_inside _ _ Hin).
    rewrite while_step by reflexivity.
    unfold mergeEquals_step at 1, mergeEquals_body.
    cbn [me_diffs me_iter me_begin me_size me_count deref].
    assert (Hd : nth_error (done ++ run ++ d :: rest) (length done + length run) = Some d).
    { rewrite app_assoc, <- length_app. rewrite nth_error_app2 by lia.
      now rewrite Nat.sub_diag. }
    rewrite Hd. cbn [bind].
    destruct (Operation_eqb (Diff.operation d) EQUAL) eqn:Hop.
    + (* one more EQUAL for the run *)
      cbn [bind me_diffs me_iter me_begin me_size me_count next].
      apply Nat.ltb_lt in Hin. rewrite Hin. cbn [bind].
      rewrite at_position_next.
      replace (list_sum (map Diff.bytes run) + Diff.bytes d)
        with (list_sum (map Diff.bytes (run ++ [d])))
        by (rewrite map_app, list_sum_app; simpl; lia).
      replace (S (length run)) with (length (run ++ [d]))
        by (rewrite length_app; simpl; lia).
      cbn [merged_equals]. rewrite Hop.
      replace (done ++ run ++ d :: rest) with (done ++ (run ++ [d]) ++ rest)
        by (now rewrite <- app_assoc).
      apply IH; [ | | lia ].
      * apply Forall_app. split; [ assumption | ].
        constructor; [ | constructor ]. destruct (Diff.operation d); now try discriminate.
      * intros _. destruct run as [ | d1 run]; cbn [length Nat.eqb].
        -- now rewrite Nat.add_0_r.
        -- apply Hbegin. discriminate.
    + (* an edit closes the run *)
      cbn [merged_equals]. rewrite Hop.
      destruct run as [ | d1 [ | d2 run]]; cbn [length Nat.ltb Nat.leb close_run].
      * cbn [bind me_diffs me_iter me_begin me_size me_count next app].
        rewrite Nat.add_0_r in *. apply Nat.ltb_lt in Hin. cbn [app] in Hin. rewrite Hin.
        cbn [bind].
        specialize (IH (done ++ [d]) [] end_ fuel (Forall_nil _)).
        cbn [app length list_sum map] in IH. rewrite <- !app_assoc in IH. cbn [app] in IH.
        rewrite length_app, Nat.add_0_r in IH. cbn [length] in IH.
        replace (length done + 1) with (S (length done)) in IH by lia.
        apply IH; [ congruence | lia ].
      * cbn [bind me_diffs me_iter me_begin me_size me_count next app].
        cbn [length app] in Hin.
        apply Nat.ltb_lt in Hin. rewrite Hin. cbn [bind].
        specialize (IH (done ++ [d1; d]) [] end_ fuel (Forall_nil _)).
        cbn [app length list_sum map] in IH. rewrite <- !app_assoc in IH. cbn [app] in IH.
        rewrite length_app, Nat.add_0_r in IH. cbn [length] in IH.
        replace (length done + 2) with (S (length done + 1)) in IH by lia.
        apply IH; [ congruence | lia ].
      * rewrite Hbegin by discriminate.
        pose proof (mergeEquals_join_run done (d1 :: d2 :: run) (d :: rest)
                      (list_sum (map Diff.bytes (d1 :: d2 :: run)))) as Hj.
        rewrite (at_position_inside _ _ Hin) in Hj.
        cbn [length] in Hj. rewrite Hj. clear Hj.
        set (J := Diff.make_join EQUAL _ _).
        assert (Hin' : S (length done) < length (done ++ J :: d :: rest)).
        { rewrite length_app. simpl. lia. }
        rewrite (at_position_inside _ _ Hin').
        cbn [bind me_diffs me_iter me_begin me_size me_count next app].
        apply Nat.ltb_lt in Hin'. rewrite Hin'. cbn [bind].
        specialize (IH (done ++ [J; d]) [] end_ fuel (Forall_nil _)).
        cbn [app length list_sum map] in IH. rewrite <- !app_assoc in IH. cbn [app] in IH.
        rewrite length_app, Nat.add_0_r in IH. cbn [length] in IH.
        replace (length done + 2) with (S (S (length done))) in IH by lia.
        apply IH; [ congruence | lia ].
Qed.


Lemma mergeEquals_closed_form (fuel : nat) (l : diffs) :
  length l <= fuel -> mergeEquals fuel l = Done (merged_equals [] l).
Proof.
  intro Hfuel.
  pose proof (mergeEquals_loop l [] [] end_ fuel (Forall_nil _)
                (fun H => False_ind _ (H eq_refl)) Hfuel) as Hloop.
  cbn [app length list_sum map Nat.add] in Hloop.
  replace (at_position l 0) with (begin_ l) in Hloop by (now destruct l).
  exact Hloop.
Qed.

(** The joined buffer holds the bytes of the run, also when there are
    none and no block is allocated. *)
Lemma join_data (run : list Buffer.t) :
  Buffer.data (Buffer.join (list_sum (map Buffer.bytes run)) run)
  = concat (map Buffer.data run).
Proof.
  unfold Buffer.join.
  destruct (Nat.ltb_spec 0 (list_sum (map Buffer.bytes run))) as [_ | Hnone];
    [ reflexivity | ].
  cbn [Buffer.data Buffer._data].
  induction run as [ | b run IH]; [ reflexivity | ].
  cbn [map list_sum fold_right concat] in Hnone |- *.
  assert (Hb : Buffer.bytes b = 0) by lia.
  unfold Buffer.bytes in Hb. apply length_zero_iff_nil in Hb.
  unfold Buffer.data at 1. rewrite Hb. cbn [app]. apply IH.
  unfold list_sum in *. lia.
Qed.

Lemma close_run_concat (op : Operation) (run : diffs) :
  Forall (fun d => Diff.operation d = EQUAL) run ->
  Specified.concat_without op (close_run run) = Specified.concat_without op run.
Proof.
  intro Hrun. destruct run as [ | d1 [ | d2 run]]; try reflexivity.
  unfold close_run, Specified.concat_without.
  assert (Hall : forall ds : diffs,
             Forall (fun d => Diff.operation d = EQUAL) ds ->
             map Diff.data (filter (fun d => negb (Operation_eqb (Diff.operation d) op)) ds)
             = if negb (Operation_eqb EQUAL op) then map Diff.data ds else []).
  { induction ds as [ | d ds IHds]; intro Hds.
    - now destruct (negb _).
    - inversion Hds as [ | ? ? Hd Hds']; subst. cbn [filter]. rewrite Hd.
      specialize (IHds Hds').
      destruct (negb (Operation_eqb EQUAL op)); cbn [map]; now rewrite IHds. }
  rewrite (Hall _ Hrun). cbn [filter Diff.make_join Diff.operation].
  destruct (negb (Operation_eqb EQUAL op)); [ | reflexivity ].
  set (ds := d1 :: d2 :: run).
  cbn [map concat]. unfold Diff.make_join, Diff.data at 1. cbn [Diff.buffer].
  replace (map Diff.bytes ds) with (map Buffer.bytes (map Diff.buffer ds))
    by (rewrite map_map; reflexivity).
  rewrite join_data, app_nil_r, map_map. reflexivity.
Qed.

Lemma concat_without_app (op : Operation) (a b : diffs) :
  Specified.concat_without op (a ++ b)
  = Specified.concat_without op a ++ Specified.concat_without op b.
Proof.
  unfold Specified.concat_without. now rewrite filter_app, map_app, concat_app.
Qed.

Lemma merged_equals_concat (op : Operation) (rest : diffs) :
  forall run : diffs,
    Forall (fun d => Diff.operation d = EQUAL) run ->
    Specified.concat_without op (merged_equals run rest)
    = Specified.concat_without op (run ++ rest).
Proof.
  induction rest as [ | d rest IH]; intros run Hrun; cbn [merged_equals].
  - rewrite app_nil_r. now apply close_run_concat.
  - destruct (Operation_eqb (Diff.operation d) EQUAL) eqn:Hop.
    + rewrite IH, <- app_assoc; [ reflexivity | ].
      apply Forall_app. split; [ assumption | ].
      constructor; [ | constructor ]. destruct (Diff.operation d); now try discriminate.
    + change (d :: merged_equals [] rest) with ([d] ++ merged_equals [] rest).
      change (d :: rest) with ([d] ++ rest).
      rewrite !concat_without_app, close_run_concat, (IH [] (Forall_nil _)) by assumption.
      reflexivity.
Qed.

Lemma close_run_edits (run : diffs) :
  Forall (fun d => Diff.operation d = EQUAL) run ->
  filter is_edit (close_run run) = [] /\ filter is_edit run = []
  /\ length (close_run run) <= Nat.min 1 (length run)
  /\ Forall (fun d => Diff.operation d = EQUAL) (close_run run).
Proof.
  intro Hrun.
  assert (Hnone : filter is_edit run = []).
  { induction Hrun as [ | d ds Hd Hds IHds]; [ reflexivity | ].
    cbn [filter]. unfold is_edit at 1. now rewrite Hd. }
  destruct run as [ | d1 [ | d2 run]]; cbn [close_run length]; repeat split;
    try assumption; try reflexivity; try lia.
  repeat constructor.
Qed.

Lemma merged_equals_edits (rest : diffs) :
  forall run : diffs,
    Forall (fun d => Diff.operation d = EQUAL) run ->
    filter is_edit (merged_equals run rest) = filter is_edit rest
    /\ length (merged_equals run rest) <= length run + length rest
    /\ adjacent_equals (merged_equals run rest) = false.
Proof.
  induction rest as [ | d rest IH]; intros run Hrun; cbn [merged_equals].
  - destruct (close_run_edits run Hrun) as (He & _ & Hlen & _).
    repeat split; [ exact He | lia | ].
    revert Hlen. destruct (close_run run) as [ | c [ | c' cs]]; try reflexivity.
    cbn [length]. intro Hlen. lia.
  - destruct (Operation_eqb (Diff.operation d) EQUAL) eqn:Hop.
    + assert (Hrun' : Forall (fun d => Diff.operation d = EQUAL) (run ++ [d])).
      { apply Forall_app. split; [ assumption | ].
        constructor; [ | constructor ]. destruct (Diff.operation d); now try discriminate. }
      destruct (IH _ Hrun') as (He & Hlen & Hadj).
      repeat split; [ | rewrite length_app in Hlen; simpl in *; lia | exact Hadj ].
      cbn [filter]. unfold is_edit at 2. now rewrite Hop.
    + destruct (IH [] (Forall_nil _)) as (He & Hlen & Hadj).
      destruct (close_run_edits run Hrun) as (Hce & _ & Hclen & _).
      repeat split.
      * rewrite filter_app, Hce. cbn [app filter]. now rewrite He.
      * rewrite length_app. cbn [length Nat.add] in *. lia.
      * revert Hclen.
        destruct (close_run run) as [ | c [ | c' cs]];
          [ | | cbn [length]; intro Hclen; lia ]; intros _;
          cbn [app adjacent_equals]; rewrite Hop;
          destruct (merged_equals [] rest) as [ | m ms];
          rewrite ?andb_false_r, ?andb_false_l; cbn [orb]; try reflexivity;
          cbn [adjacent_equals] in Hadj |- *; rewrite ?andb_false_r, ?andb_false_l;
          cbn [orb]; try exact Hadj; reflexivity.
Qed.

Lemma adjacent_equals_tail (d : Diff.t) (rest : diffs) :
  adjacent_equals (d :: rest) = false -> adjacent_equals rest = false.
Proof.
  destruct rest as [ | d' rest]; [ reflexivity | ].
  cbn [adjacent_equals]. intro H. apply orb_false_iff in H. tauto.
Qed.

Lemma merged_equals_fixed (rest : diffs) :
  forall run : diffs,
    length run <= 1 ->
    adjacent_equals (run ++ rest) = false ->
    Forall (fun d => Diff.operation d = EQUAL) run ->
    merged_equals run rest = run ++ rest.
Proof.
  induction rest as [ | d rest IH]; intros run Hlen Hadj Hrun; cbn [merged_equals].
  - rewrite app_nil_r. destruct run as [ | d1 [ | d2 run]]; try reflexivity.
    simpl in Hlen. lia.
  - destruct (Operation_eqb (Diff.operation d) EQUAL) eqn:Hop.
    + destruct run as [ | d1 [ | d2 run]]; [ | | simpl in Hlen; lia ].
      * cbn [app] in *. apply (IH [d]); [ simpl; lia | exact Hadj | ].
        constructor; [ | constructor ]. destruct (Diff.operation d); now try discriminate.
      * exfalso. cbn [app adjacent_equals] in Hadj. inversion Hrun as [ | ? ? Hd1 _]; subst.
        rewrite Hd1, Hop in Hadj. discriminate.
    + destruct run as [ | d1 [ | d2 run]]; [ | | simpl in Hlen; lia ]; cbn [close_run app] in *.
      * f_equal. apply (IH []); [ simpl; lia | | constructor ].
        now apply adjacent_equals_tail in Hadj.
      * f_equal. f_equal. apply (IH []); [ simpl; lia | | constructor ].
        now apply adjacent_equals_tail, adjacent_equals_tail in Hadj.
Qed.

End MergeEquals.

(** X14: given steps for every Diff, [mergeEquals] returns a
    list in which no two EQUALs are neighbours, which reads back to the
    same two texts, keeps the edits as they were and in their order, is
    no longer than the list it was given and is left as it is by a
    second run. *)
Theorem mergeEquals_joins_runs_of_equals (fuel : nat) (l : Patch.diffs) :
  length l <= fuel ->
  exists l' : Patch.diffs,
    Patch.mergeEquals fuel l = Done l'
    /\ adjacent_equals l' = false
    /\ Specified.concat_without INSERT l' = Specified.concat_without INSERT l
    /\ Specified.concat_without DELETE l' = Specified.concat_without DELETE l
    /\ filter is_edit l' = filter is_edit l
    /\ length l' <= length l
    /\ Patch.mergeEquals fuel l' = Done l'.
Proof.
  intro Hfuel. exists (merged_equals [] l).
  destruct (merged_equals_edits l [] (Forall_nil _)) as (He & Hlen & Hadj).
  split; [ now apply mergeEquals_closed_form | ].
  split; [ exact Hadj | ].
  split; [ apply (merged_equals_concat INSERT l [] (Forall_nil _)) | ].
  split; [ apply (merged_equals_concat DELETE l [] (Forall_nil _)) | ].
  split; [ exact He | ].
  split; [ exact Hlen | ].
  rewrite mergeEquals_closed_form by (simpl in Hlen; lia).
  apply f_equal.
  apply (merged_equals_fixed (merged_equals [] l) []); [ simpl; lia | exact Hadj | constructor ].
Qed.

Lemma mergeEquals_joins_runs_of_equals_witness :
  length [diff_of EQUAL "a"; diff_of EQUAL "b"; diff_of INSERT "c"; diff_of EQUAL "d"] <= 4
  /\ exists l' : Patch.diffs,
       Patch.mergeEquals 4 [diff_of EQUAL "a"; diff_of EQUAL "b"; diff_of INSERT "c";
                            diff_of EQUAL "d"] = Done l'
       /\ adjacent_equals l' = false.
Proof.
  split; [ simpl; lia | ].
  destruct (mergeEquals_joins_runs_of_equals
              4 [diff_of EQUAL "a"; diff_of EQUAL "b"; diff_of INSERT "c"; diff_of EQUAL "d"])
    as (l' & Hrun & Hadj & _); [ simpl; lia | ].
  exists l'. split; assumption.
Defined.

(** ** [shift] *)

Section Shift.

Import Patch StdList.

(** X15: [shift] starts with [std::next] twice from [begin()]: on
    the empty list and on a list of one Diff that runs past [end()]; a
    list of two Diffs is returned unchanged with the answer 0. *)
Theorem shift_on_short_lists (fuel : nat) (a b : Diff.t) :
  shift fuel [] = Undefined
  /\ shift fuel [a] = Undefined
  /\ shift fuel [a; b] = Done ([a; b], 0).
Proof.
  repeat split.
  unfold shift. cbn [begin_ next length Nat.ltb Nat.leb at_position bind].
  now rewrite while_done by reflexivity.
Qed.

(** X16: on a list of three or more Diffs whose first three are
    not EQUAL, edit, EQUAL, the loop of [shift] leaves through one of
    its [continue] statements with the iterators where they were, and
    no number of steps ends it. *)
Theorem shift_spins_off_pattern (d0 d1 d2 : Diff.t) (l : diffs) (fuel : nat) :
  Operation_eqb (Diff.operation d2) EQUAL
  && negb (Operation_eqb (Diff.operation d1) EQUAL)
  && Operation_eqb (Diff.operation d0) EQUAL = false ->
  shift fuel (d0 :: d1 :: d2 :: l) = OutOfFuel.
Proof.
  intro Hoff. unfold shift.
  cbn [begin_ next length Nat.ltb Nat.leb at_position bind].
  rewrite while_spins; [ reflexivity | reflexivity | ].
  unfold shift_body. cbn [sh_diffs next_ current prev deref nth_error bind].
  destruct (Operation_eqb (Diff.operation d2) EQUAL); cbn [negb]; [ | reflexivity ].
  destruct (Operation_eqb (Diff.operation d1) EQUAL); cbn [negb]; [ reflexivity | ].
  destruct (Operation_eqb (Diff.operation d0) EQUAL); [ discriminate | reflexivity ].
Qed.

Lemma shift_spins_off_pattern_witness :
  Operation_eqb (Diff.operation (diff_of EQUAL "x")) EQUAL
  && negb (Operation_eqb (Diff.operation (diff_of INSERT "b")) EQUAL)
  && Operation_eqb (Diff.operation (diff_of DELETE "a")) EQUAL = false
  /\ shift 7 [diff_of DELETE "a"; diff_of INSERT "b"; diff_of EQUAL "x"] = OutOfFuel.
Proof.
  split; [ reflexivity | ].
  exact (shift_spins_off_pattern (diff_of DELETE "a") (diff_of INSERT "b")
                                 (diff_of EQUAL "x") [] 7 eq_refl).
Defined.

Lemma covers_suffix (op : Operation) (c p : Buffer.t) (c0 : list byte) :
  Buffer.data c = c0 ++ Buffer.data p ->
  covers (Diff.mk op c) (Diff.bytes (Diff.mk op c) - Diff.bytes (Diff.mk EQUAL p))
         (Diff.mk EQUAL p) = Done true.
Proof.
  intro Hc. unfold covers, Diff.bytes, Diff.compare_at, Buffer.compare_at.
  cbn [Diff.buffer]. unfold Buffer.bytes. fold (Buffer.data c). fold (Buffer.data p).
  rewrite Hc, length_app.
  destruct (Nat.leb_spec (length (Buffer.data p)) (length c0 + length (Buffer.data p)));
    [ | lia ].
  rewrite Nat.ltb_irrefl.
  destruct (Nat.ltb_spec (length c0 + length (Buffer.data p))
                         (length c0 + length (Buffer.data p) - length (Buffer.data p)));
    [ lia | ].
  cbn [bind]. replace (length c0 + length (Buffer.data p) - length (Buffer.data p))
    with (length c0) by lia.
  rewrite skipn_app, Nat.sub_diag, skipn_all. cbn [skipn app].
  now rewrite memcmp_refl.
Qed.

(** X17: a triple EQUAL p, edit c, EQUAL n whose edit ends with
    [p] becomes the pair edit (p ++ c without its end [p]),
    EQUAL (p ++ n); [shift] answers 1 and both texts read back as
    before. *)
Theorem shift_left_over_the_previous_equal
        (op : Operation) (p c n : Buffer.t) (c0 : list byte) (fuel : nat) :
  Operation_eqb op EQUAL = false ->
  Buffer.data c = c0 ++ Buffer.data p ->
  exists c' n' : Buffer.t,
    shift (S fuel) [Diff.mk EQUAL p; Diff.mk op c; Diff.mk EQUAL n]
    = Done ([Diff.mk op c'; Diff.mk EQUAL n'], 1)
    /\ Buffer.data c' = Buffer.data p ++ c0
    /\ Buffer.data n' = Buffer.data p ++ Buffer.data n
    /\ Specified.concat_without INSERT [Diff.mk op c'; Diff.mk EQUAL n']
       = Specified.concat_without INSERT [Diff.mk EQUAL p; Diff.mk op c; Diff.mk EQUAL n]
    /\ Specified.concat_without DELETE [Diff.mk op c'; Diff.mk EQUAL n']
       = Specified.concat_without DELETE [Diff.mk EQUAL p; Diff.mk op c; Diff.mk EQUAL n].
Proof.
  intros Hop Hc.
  exists (Buffer.prepend (Buffer.shrink c (Buffer.bytes p)) p), (Buffer.prepend n p).
  assert (Hc' : Buffer.data (Buffer.prepend (Buffer.shrink c (Buffer.bytes p)) p)
                = Buffer.data p ++ c0).
  { unfold Buffer.prepend, Buffer.prepend_data, Buffer.data at 1. cbn [Buffer._data].
    fold (Buffer.data (Buffer.shrink c (Buffer.bytes p))). rewrite shrink_data.
    unfold Buffer.bytes. fold (Buffer.data c) (Buffer.data p).
    rewrite Hc, length_app, Nat.add_sub.
    rewrite firstn_app, Nat.sub_diag, firstn_all. cbn [firstn]. now rewrite app_nil_r. }
  split.
  - unfold shift. cbn [begin_ next length Nat.ltb Nat.leb at_position bind].
    rewrite while_step by reflexivity.
    unfold shift_body. cbn [sh_diffs next_ current prev deref nth_error bind Diff.operation].
    cbn [Operation_eqb negb]. rewrite Hop.
    rewrite (covers_suffix op c p c0 Hc). cbn [bind].
    cbn [store length Nat.ltb Nat.leb firstn skipn app bind erase after_erase
         shift_advance next at_position pred changes].
    rewrite while_done by reflexivity. reflexivity.
  - split; [ exact Hc' | ].
    split; [ reflexivity | ].
    assert (Hn' : Buffer.data (Buffer.prepend n p) = Buffer.data p ++ Buffer.data n)
      by reflexivity.
    unfold Specified.concat_without.
    destruct op; try discriminate;
      cbn [Operation_eqb negb filter map concat Diff.operation];
      unfold Diff.data; cbn [Diff.buffer];
      rewrite ?Hc', ?Hn', ?Hc, ?app_nil_r, <- ?app_assoc; auto.
Qed.

Lemma shift_left_over_the_previous_equal_witness :
  exists c' n' : Buffer.t,
    shift 1 [diff_of EQUAL "A"; diff_of INSERT "BA"; diff_of EQUAL "C"]
    = Done ([Diff.mk INSERT c'; Diff.mk EQUAL n'], 1)
    /\ Buffer.data c' = bytes_of "AB" /\ Buffer.data n' = bytes_of "AC".
Proof.
  destruct (shift_left_over_the_previous_equal
              INSERT (Buffer.mk (bytes_of "A") false) (Buffer.mk (bytes_of "BA") false)
              (Buffer.mk (bytes_of "C") false) (bytes_of "B") 0 eq_refl eq_refl)
    as (c' & n' & Hrun & Hc & Hn & _).
  exists c', n'. repeat split; assumption.
Defined.

Lemma covers_decides (a b : Diff.t) (start : nat) :
  (Diff.bytes b <= Diff.bytes a -> start + Diff.bytes b <= Diff.bytes a) ->
  exists r : bool,
    covers a start b = Done r
    /\ (r = true <-> firstn (Diff.bytes b) (skipn start (Diff.data a)) = Diff.data b).
Proof.
  intro Hfit. unfold covers.
  destruct (Nat.leb_spec (Diff.bytes b) (Diff.bytes a)) as [Hle | Hgt].
  - specialize (Hfit Hle).
    unfold Diff.compare_at, Buffer.compare_at, Diff.bytes, Diff.data, Buffer.data in *.
    rewrite Nat.ltb_irrefl.
    destruct (Nat.ltb_spec (Buffer.bytes (Diff.buffer a)) start) as [Hbad | _]; [ lia | ].
    cbn [bind]. eexists. split; [ reflexivity | ].
    rewrite Nat.min_l by lia.
    rewrite Z.eqb_eq.
    unfold Buffer.bytes in *.
    rewrite memcmp_zero by (rewrite ?length_skipn; lia).
    now rewrite (firstn_all (Buffer._data (Diff.buffer b))).
  - exists false. split; [ reflexivity | ].
    split; [ discriminate | ].
    intro H. apply (f_equal (@length byte)) in H.
    rewrite length_firstn, length_skipn in H.
    unfold Diff.bytes, Diff.data, Buffer.bytes, Buffer.data in *. lia.
Qed.

Lemma covers_left (op : Operation) (c p : Buffer.t) :
  exists r : bool,
    covers (Diff.mk op c) (Diff.bytes (Diff.mk op c) - Diff.bytes (Diff.mk EQUAL p))
           (Diff.mk EQUAL p) = Done r
    /\ (r = true -> exists c1 : list byte, Buffer.data c = c1 ++ Buffer.data p).
Proof.
  destruct (covers_decides (Diff.mk op c) (Diff.mk EQUAL p)
              (Diff.bytes (Diff.mk op c) - Diff.bytes (Diff.mk EQUAL p))) as (r & Hr & Hiff);
    [ lia | ].
  exists r. split; [ exact Hr | ].
  intro Htrue. apply Hiff in Htrue.
  unfold Diff.bytes, Diff.data in Htrue. cbn [Diff.buffer] in Htrue.
  exists (firstn (Buffer.bytes c - Buffer.bytes p) (Buffer.data c)).
  rewrite <- Htrue.
  rewrite <- (firstn_skipn (Buffer.bytes c - Buffer.bytes p) (Buffer.data c)) at 1.
  f_equal. symmetry. apply firstn_all2. rewrite length_skipn.
  unfold Buffer.bytes, Buffer.data. lia.
Qed.

Lemma covers_right (op : Operation) (c n : Buffer.t) :
  exists r : bool,
    covers (Diff.mk op c) 0 (Diff.mk EQUAL n) = Done r
    /\ (r = true <-> exists c0 : list byte, Buffer.data c = Buffer.data n ++ c0).
Proof.
  destruct (covers_decides (Diff.mk op c) (Diff.mk EQUAL n) 0) as (r & Hr & Hiff);
    [ lia | ].
  exists r. split; [ exact Hr | ].
  rewrite Hiff. unfold Diff.bytes, Diff.data. cbn [Diff.buffer skipn].
  split.
  - intro H. exists (skipn (Buffer.bytes n) (Buffer.data c)).
    rewrite <- H at 1. symmetry. apply firstn_skipn.
  - intros [c0 ->]. unfold Buffer.bytes. fold (Buffer.data n).
    now rewrite firstn_app, Nat.sub_diag, firstn_all, app_nil_r.
Qed.

Lemma covers_not_left (op : Operation) (c p : Buffer.t) :
  (forall c1 : list byte, Buffer.data c <> c1 ++ Buffer.data p) ->
  covers (Diff.mk op c) (Diff.bytes (Diff.mk op c) - Diff.bytes (Diff.mk EQUAL p))
         (Diff.mk EQUAL p) = Done false.
Proof.
  intro Hno. destruct (covers_left op c p) as ([ | ] & Hr & Hsuffix); [ | exact Hr ].
  destruct (Hsuffix eq_refl) as [c1 Hc1]. now apply Hno in Hc1.
Qed.

(** X18: a triple whose edit starts with the text of the EQUAL behind it
    (and does not end with the text of the EQUAL before it) is shifted
    to the right.  The EQUAL behind is erased, and [++next] then asks
    for a Diff to go on from: with nothing behind the triple it is
    applied to [end()]. *)
Theorem shift_right_over_the_next_equal
        (op : Operation) (p c n : Buffer.t) (c0 : list byte) (x : Diff.t) (fuel : nat) :
  Operation_eqb op EQUAL = false ->
  (forall c1 : list byte, Buffer.data c <> c1 ++ Buffer.data p) ->
  Buffer.data c = Buffer.data n ++ c0 ->
  shift (S fuel) [Diff.mk EQUAL p; Diff.mk op c; Diff.mk EQUAL n] = Undefined
  /\ exists p' c' : Buffer.t,
      shift (S fuel) [Diff.mk EQUAL p; Diff.mk op c; Diff.mk EQUAL n; x]
      = Done ([Diff.mk EQUAL p'; Diff.mk op c'; x], 1)
      /\ Buffer.data p' = Buffer.data p ++ Buffer.data n
      /\ Buffer.data c' = c0 ++ Buffer.data n
      /\ Specified.concat_without INSERT [Diff.mk EQUAL p'; Diff.mk op c'; x]
         = Specified.concat_without INSERT
             [Diff.mk EQUAL p; Diff.mk op c; Diff.mk EQUAL n; x]
      /\ Specified.concat_without DELETE [Diff.mk EQUAL p'; Diff.mk op c'; x]
         = Specified.concat_without DELETE
             [Diff.mk EQUAL p; Diff.mk op c; Diff.mk EQUAL n; x].
Proof.
  intros Hop Hleft Hc.
  assert (Hright : covers (Diff.mk op c) 0 (Diff.mk EQUAL n) = Done true).
  { destruct (covers_right op c n) as (r & Hr & Hiff).
    rewrite Hr. f_equal. apply Hiff. now exists c0. }
  assert (Hc' : Buffer.data (Buffer.append (Buffer.skip c (Buffer.bytes n)) n)
                = c0 ++ Buffer.data n).
  { unfold Buffer.append, Buffer.append_data, Buffer.data at 1. cbn [Buffer._data].
    fold (Buffer.data (Buffer.skip c (Buffer.bytes n))). rewrite skip_data.
    unfold Buffer.bytes. fold (Buffer.data n).
    now rewrite Hc, skipn_app, Nat.sub_diag, skipn_all. }
  split.
  - unfold shift. cbn [begin_ next length Nat.ltb Nat.leb at_position bind].
    rewrite while_step by reflexivity.
    unfold shift_body. cbn [sh_diffs next_ current prev deref nth_error bind Diff.operation].
    cbn [Operation_eqb negb]. rewrite Hop.
    rewrite (covers_not_left op c p Hleft). cbn [bind].
    rewrite Hright. cbn [bind].
    cbn [store length Nat.ltb Nat.leb firstn skipn app bind erase after_erase
         shift_advance next at_position pred changes]. reflexivity.
  - exists (Buffer.append p n), (Buffer.append (Buffer.skip c (Buffer.bytes n)) n).
    split.
    + unfold shift. cbn [begin_ next length Nat.ltb Nat.leb at_position bind].
      rewrite while_step by reflexivity.
      unfold shift_body.
      cbn [sh_diffs next_ current prev deref nth_error bind Diff.operation].
      cbn [Operation_eqb negb]. rewrite Hop.
      rewrite (covers_not_left op c p Hleft). cbn [bind].
      rewrite Hright. cbn [bind].
      cbn [store length Nat.ltb Nat.leb firstn skipn app bind erase after_erase
           shift_advance next at_position pred changes].
      rewrite while_done by reflexivity. reflexivity.
    + split; [ reflexivity | ].
      split; [ exact Hc' | ].
      assert (Hp' : Buffer.data (Buffer.append p n) = Buffer.data p ++ Buffer.data n)
        by reflexivity.
      unfold Specified.concat_without.
      destruct op; try discriminate;
        cbn [Operation_eqb negb filter map concat Diff.operation];
        destruct (negb (Operation_eqb (Diff.operation x) _));
        cbn [map concat]; unfold Diff.data; cbn [Diff.buffer];
        rewrite ?Hc', ?Hp', ?Hc, ?app_nil_r, <- ?app_assoc; auto.
Qed.

Lemma shift_right_over_the_next_equal_witness :
  exists p' c' : Buffer.t,
    shift 1 [diff_of EQUAL "A"; diff_of INSERT "CB"; diff_of EQUAL "C"; diff_of EQUAL "D"]
    = Done ([Diff.mk EQUAL p'; Diff.mk INSERT c'; diff_of EQUAL "D"], 1)
    /\ Buffer.data p' = bytes_of "AC" /\ Buffer.data c' = bytes_of "BC".
Proof.
  assert (Hleft : forall c1 : list byte,
             Buffer.data (Buffer.mk (bytes_of "CB") false)
             <> c1 ++ Buffer.data (Buffer.mk (bytes_of "A") false)).
  { intros c1 H. apply (f_equal (@rev byte)) in H. rewrite rev_app_distr in H.
    discriminate H. }
  destruct (proj2 (shift_right_over_the_next_equal
                     INSERT (Buffer.mk (bytes_of "A") false)
                     (Buffer.mk (bytes_of "CB") false)
                     (Buffer.mk (bytes_of "C") false) (bytes_of "B")
                     (diff_of EQUAL "D") 0 eq_refl Hleft eq_refl))
    as (p' & c' & Hrun & Hp & Hc & _).
  exists p', c'. repeat split; assumption.
Defined.

(** X19: a triple EQUAL, edit, EQUAL whose edit neither ends with the
    text before it nor starts with the text behind it is left as it
    is, and [shift] reports no change. *)
Theorem shift_leaves_a_triple_that_does_not_fit
        (op : Operation) (p c n : Buffer.t) (fuel : nat) :
  Operation_eqb op EQUAL = false ->
  (forall c1 : list byte, Buffer.data c <> c1 ++ Buffer.data p) ->
  (forall c0 : list byte, Buffer.data c <> Buffer.data n ++ c0) ->
  shift (S fuel) [Diff.mk EQUAL p; Diff.mk op c; Diff.mk EQUAL n]
  = Done ([Diff.mk EQUAL p; Diff.mk op c; Diff.mk EQUAL n], 0).
Proof.
  intros Hop Hleft Hright.
  assert (Hr : covers (Diff.mk op c) 0 (Diff.mk EQUAL n) = Done false).
  { destruct (covers_right op c n) as ([ | ] & Hr & Hiff); [ | exact Hr ].
    destruct (proj1 Hiff eq_refl) as [c0 Hc0]. now apply Hright in Hc0. }
  unfold shift. cbn [begin_ next length Nat.ltb Nat.leb at_position bind].
  rewrite while_step by reflexivity.
  unfold shift_body. cbn [sh_diffs next_ current prev deref nth_error bind Diff.operation].
  cbn [Operation_eqb negb]. rewrite Hop.
  rewrite (covers_not_left op c p Hleft). cbn [bind].
  rewrite Hr. cbn [bind].
  cbn [shift_advance next length Nat.ltb Nat.leb at_position bind changes].
  rewrite while_done by reflexivity. reflexivity.
Qed.

Lemma shift_leaves_a_triple_that_does_not_fit_witness :
  shift 1 [diff_of EQUAL "A"; diff_of DELETE "B"; diff_of EQUAL "C"]
  = Done ([diff_of EQUAL "A"; diff_of DELETE "B"; diff_of EQUAL "C"], 0).
Proof.
  apply (shift_leaves_a_triple_that_does_not_fit
           DELETE (Buffer.mk (bytes_of "A") false) (Buffer.mk (bytes_of "B") false)
           (Buffer.mk (bytes_of "C") false) 0 eq_refl).
  - intros c1 H. apply (f_equal (@rev byte)) in H. rewrite rev_app_distr in H.
    discriminate H.
  - intros c0 H. discriminate H.
Defined.

Lemma shift_long_list_never_returns (d0 d1 d2 d3 d4 : Diff.t) (l : diffs) (fuel : nat) :
  forall r : diffs * nat, shift fuel (d0 :: d1 :: d2 :: d3 :: d4 :: l) <> Done r.
Proof.
  intros r H. unfold shift in H.
  cbn [begin_ next length Nat.ltb Nat.leb at_position bind] in H.
  destruct fuel as [ | fuel]; [ discriminate H | ].
  rewrite while_step in H by reflexivity.
  unfold shift_body at 1 in H.
  cbn [sh_diffs next_ current prev deref nth_error bind] in H.
  destruct (Operation_eqb (Diff.operation d2) EQUAL) eqn:H2; cbn [negb] in H.
  2:{ cbn [bind] in H. rewrite while_spins in H; [ discriminate H | reflexivity | ].
      unfold shift_body. cbn [sh_diffs next_ current prev deref nth_error bind].
      now rewrite H2. }
  destruct (Operation_eqb (Diff.operation d1) EQUAL) eqn:H1.
  { cbn [bind] in H. rewrite while_spins in H; [ discriminate H | reflexivity | ].
    unfold shift_body. cbn [sh_diffs next_ current prev deref nth_error bind].
    now rewrite H2, H1. }
  destruct (Operation_eqb (Diff.operation d0) EQUAL) eqn:H0; cbn [negb] in H.
  2:{ cbn [bind] in H. rewrite while_spins in H; [ discriminate H | reflexivity | ].
      unfold shift_body. cbn [sh_diffs next_ current prev deref nth_error bind].
      now rewrite H2, H1, H0. }
  destruct (covers d1 (Diff.bytes d1 - Diff.bytes d0) d0) as [[ | ] | | ];
    cbn [bind] in H; try discriminate H.
  - cbn [store length Nat.ltb Nat.leb firstn skipn app bind erase after_erase
         shift_advance next at_position pred changes] in H.
    rewrite while_spins in H; [ discriminate H | reflexivity | ].
    unfold shift_body. cbn [sh_diffs next_ current prev deref nth_error bind].
    destruct (Operation_eqb (Diff.operation d3) EQUAL); cbn [negb]; [ | reflexivity ].
    unfold Diff.prepend, Diff.on_buffer. cbn [Diff.operation]. now rewrite H2.
  - destruct (covers d1 0 d2) as [[ | ] | | ]; cbn [bind] in H; try discriminate H.
    + cbn [store length Nat.ltb Nat.leb firstn skipn app bind erase after_erase
           shift_advance next at_position pred changes] in H.
      rewrite while_spins in H; [ discriminate H | reflexivity | ].
      unfold shift_body. cbn [sh_diffs next_ current prev deref nth_error bind].
      destruct (Operation_eqb (Diff.operation d4) EQUAL); cbn [negb]; [ | reflexivity ].
      destruct (Operation_eqb (Diff.operation d3) EQUAL); [ reflexivity | ].
      unfold Diff.append, Diff.skip, Diff.on_buffer. cbn [Diff.operation]. now rewrite H1.
    + cbn [shift_advance next length Nat.ltb Nat.leb at_position bind changes] in H.
      rewrite while_spins in H; [ discriminate H | reflexivity | ].
      unfold shift_body. cbn [sh_diffs next_ current prev deref nth_error bind].
      destruct (Operation_eqb (Diff.operation d3) EQUAL); cbn [negb]; [ | reflexivity ].
      now rewrite H2.
Qed.

(** X20: [shift] hands a result back only for a list of two, three or
    four Diffs.  On a longer list the second pass of the loop meets a
    triple that does not start with an EQUAL and leaves through
    [continue], which does not move the iterators. *)
Theorem shift_returns_only_on_short_lists (fuel : nat) (l : diffs) (r : diffs * nat) :
  shift fuel l = Done r ->
  2 <= length l <= 4.
Proof.
  intro H.
  destruct l as [ | d0 [ | d1 [ | d2 [ | d3 [ | d4 l]]]]]; cbn [length]; try lia.
  - discriminate H.
  - discriminate H.
  - now apply shift_long_list_never_returns in H.
Qed.

Lemma shift_returns_only_on_short_lists_witness :
  2 <= length [diff_of DELETE "a"; diff_of INSERT "b"] <= 4.
Proof.
  exact (shift_returns_only_on_short_lists
           0 [diff_of DELETE "a"; diff_of INSERT "b"]
           ([diff_of DELETE "a"; diff_of INSERT "b"], 0) eq_refl).
Defined.

End Shift.

(** ** The search of [CommonHalf] ends *)

Lemma to_int_small (z : Z) : (- 2 ^ 31 <= z < 2 ^ 31)%Z -> to_int z = z.
Proof.
  intro Hz. unfold to_int, wrap_signed.
  change (2 ^ (32 - 1))%Z with (2 ^ 31)%Z.
  rewrite Z.mod_small by lia. lia.
Qed.

Lemma search_ends (seed : Ascii.t) (index : nat) (short : Ascii.t) :
  0 < Ascii.characters seed ->
  (Z.of_nat (Ascii.characters short) < 2 ^ 31)%Z ->
  forall (fuel : nat) (self : CommonHalf.t) (pos : Z),
    CommonHalf._shorttext self = short ->
    (-1 <= pos < Z.of_nat (Ascii.characters short) \/ pos = -1)%Z ->
    (Z.of_nat (Ascii.characters short) - 1 - pos < Z.of_nat fuel)%Z ->
    exists h : CommonHalf.t, CommonHalf.search fuel seed index (self, pos) = Done h.
Proof.
  intros Hseed Hshort.
  induction fuel as [ | fuel IH]; intros self pos Hself Hpos Hfuel; [ lia | ].
  cbn [CommonHalf.search]. unfold CommonHalf.search_step.
  assert (Hmax : (pos =? INT_MAX)%Z = false).
  { apply Z.eqb_neq. unfold INT_MAX. lia. }
  rewrite Hmax, Hself.
  assert (Hq : Z.to_nat (to_size_t (pos + 1)) = Z.to_nat (pos + 1)).
  { unfold to_size_t, wrap_unsigned. rewrite Z.mod_small; [ reflexivity | ].
    change (2 ^ 64)%Z with (2 ^ 31 * 2 ^ 33)%Z. lia. }
  rewrite Hq. set (q := Z.to_nat (pos + 1)).
  assert (Hqle : q <= Ascii.characters short) by (unfold q; lia).
  unfold Ascii.find_from. rewrite (find_from_as_memmem short seed q (or_intror Hseed)).
  destruct (Nat.ltb_spec (Buffer.bytes short) q) as [Hbad | _];
    [ unfold Ascii.characters in Hqle; lia | ].
  destruct (memmem (skipn q (Buffer.data short)) (Buffer.data seed)) as [k | ] eqn:Hm;
    cbn [bind].
  - destruct (memmem_found _ _ _ Hm) as (pre & post & Hhay & Hlen & _).
    assert (Hk : q + k < Ascii.characters short).
    { apply (f_equal (@length byte)) in Hhay.
      rewrite length_skipn, !length_app in Hhay.
      unfold Ascii.characters, Buffer.bytes, Buffer.data in *. lia. }
    rewrite to_int_small by lia.
    destruct (Z.leb_spec 0 (Z.of_nat (q + k))) as [_ | Hneg]; [ | lia ].
    destruct (_ <? CommonHalf.characters self); cbn [bind snd];
      (destruct (Z.leb_spec 0 (Z.of_nat (q + k))) as [_ | Hneg]; [ | lia ]);
      apply IH; try assumption; try (unfold q in *; lia).
  - change (to_int (-1)) with (-1)%Z. cbn [Z.leb Z.compare bind snd fst]. eauto.
Qed.

Lemma seed_not_empty (longtext : Ascii.t) (index : nat) :
  4 <= Ascii.characters longtext ->
  index < Ascii.characters longtext ->
  0 < Ascii.characters (Ascii.substr longtext index (Ascii.characters longtext / 4)).
Proof.
  intros Hlong Hindex. unfold Ascii.characters, Ascii.substr.
  change (Buffer.bytes (Buffer.move ?x)) with (Buffer.bytes x).
  rewrite part_size_bytes. unfold Ascii.characters in *.
  assert (1 <= Buffer.bytes longtext / 4) by (apply Nat.div_le_lower_bound; lia).
  lia.
Qed.

Lemma CommonHalf_make_returns (fuel : nat) (longtext shorttext : Ascii.t) (index : nat) :
  4 <= Ascii.characters longtext ->
  index < Ascii.characters longtext ->
  (Z.of_nat (Ascii.characters shorttext) < 2 ^ 31)%Z ->
  Ascii.characters shorttext < fuel ->
  exists h : CommonHalf.t, CommonHalf.make fuel longtext shorttext index = Done h.
Proof.
  intros Hlong Hindex Hshort Hfuel.
  apply (search_ends _ index shorttext (seed_not_empty _ _ Hlong Hindex) Hshort);
    [ reflexivity | lia | lia ].
Qed.

(** X21: for a long text of at least four characters and a short
    text of less than 2^31, the search of [CommonHalf] ends within one
    step per character of the short text, and the object it leaves
    counts no common characters: it is not valid and its common text is
    empty. *)
Theorem CommonHalf_search_returns_without_a_match
        (fuel : nat) (longtext shorttext : Ascii.t) (index : nat) :
  4 <= Ascii.characters longtext ->
  index < Ascii.characters longtext ->
  (Z.of_nat (Ascii.characters shorttext) < 2 ^ 31)%Z ->
  Ascii.characters shorttext < fuel ->
  exists h : CommonHalf.t,
    CommonHalf.make fuel longtext shorttext index = Done h
    /\ CommonHalf.characters h = 0
    /\ CommonHalf.valid h = false
    /\ Ascii.characters (CommonHalf.common h) = 0.
Proof.
  intros Hlong Hindex Hshort Hfuel.
  destruct (CommonHalf_make_returns fuel longtext shorttext index Hlong Hindex Hshort Hfuel)
    as [h Hh].
  exists h. split; [ exact Hh | ].
  destruct (CommonHalf_make_counts_nothing _ _ _ _ _ Hh) as [Hc Hv].
  split; [ exact Hc | ].
  split.
  - rewrite Hv. apply Nat.eqb_neq. lia.
  - unfold CommonHalf.common. rewrite substr_characters.
    unfold CommonHalf.characters in Hc. lia.
Qed.

Lemma CommonHalf_search_returns_without_a_match_witness :
  4 <= Ascii.characters (text "bcdefgh")
  /\ 2 < Ascii.characters (text "bcdefgh")
  /\ (Z.of_nat (Ascii.characters (text "acdefgd")) < 2 ^ 31)%Z
  /\ Ascii.characters (text "acdefgd") < 8
  /\ exists h : CommonHalf.t,
       CommonHalf.make 8 (text "bcdefgh") (text "acdefgd") 2 = Done h
       /\ CommonHalf.valid h = false.
Proof.
  assert (H1 : 4 <= Ascii.characters (text "bcdefgh")) by (vm_compute; lia).
  assert (H2 : 2 < Ascii.characters (text "bcdefgh")) by (vm_compute; lia).
  assert (H3 : (Z.of_nat (Ascii.characters (text "acdefgd")) < 2 ^ 31)%Z) by reflexivity.
  assert (H4 : Ascii.characters (text "acdefgd") < 8) by (vm_compute; lia).
  repeat (split; [ assumption | ]).
  destruct (CommonHalf_search_returns_without_a_match
              8 (text "bcdefgh") (text "acdefgd") 2 H1 H2 H3 H4)
    as (h & Hh & _ & Hv & _).
  exists h. split; assumption.
Defined.

(** ** [halfmatch] and [compute] return *)

Lemma HalfMatch_make_returns (fuel : nat) (longtext shorttext : Ascii.t) :
  4 <= Ascii.characters longtext ->
  (Z.of_nat (Ascii.characters shorttext) < 2 ^ 31)%Z ->
  Ascii.characters shorttext < fuel ->
  exists m : HalfMatch.t,
    HalfMatch.make fuel longtext shorttext = Done m /\ HalfMatch._winner m = None.
Proof.
  intros Hlong Hshort Hfuel. unfold HalfMatch.make.
  destruct (CommonHalf_make_returns fuel longtext shorttext
              ((Ascii.characters longtext + 3) / 4) Hlong) as [q2 Hq2];
    [ apply Nat.Div0.div_lt_upper_bound; lia | assumption | assumption | ].
  destruct (CommonHalf_make_returns fuel longtext shorttext
              ((Ascii.characters longtext + 1) / 2) Hlong) as [q3 Hq3];
    [ apply Nat.Div0.div_lt_upper_bound; lia | assumption | assumption | ].
  rewrite Hq2, Hq3. cbn [bind]. eexists. split; [ reflexivity | ].
  cbn [HalfMatch._winner].
  apply CommonHalf_make_counts_nothing in Hq2, Hq3.
  destruct Hq2 as [_ Hv2], Hq3 as [_ Hv3].
  unfold HalfMatch.pick, CommonHalf.to_bool. rewrite Hv2, Hv3.
  destruct (Nat.eqb_spec (Ascii.characters longtext) 0); [ lia | reflexivity ].
Qed.

Lemma halfmatch_returns_false (fuel : nat) (patch : Ascii.t -> Ascii.t -> outcome Patch.diffs)
      (text1 text2 : Ascii.t) (_diffs : Patch.diffs) :
  (Z.of_nat (Nat.min (Ascii.characters text1) (Ascii.characters text2)) < 2 ^ 31)%Z ->
  Nat.min (Ascii.characters text1) (Ascii.characters text2) < fuel ->
  Patch.halfmatch fuel patch text1 text2 _diffs = Done (_diffs, false).
Proof.
  intros Hsize Hfuel. unfold Patch.halfmatch.
  set (longtext := if Ascii.characters text2 <? Ascii.characters text1 then text1 else text2).
  set (shorttext := if Ascii.characters text2 <? Ascii.characters text1 then text2 else text1).
  destruct (Patch.halfmatch_possible longtext shorttext) eqn:Hposs; cbn [negb];
    [ | reflexivity ].
  assert (Hshort : Ascii.characters shorttext
                   = Nat.min (Ascii.characters text1) (Ascii.characters text2)).
  { unfold shorttext.
    destruct (Nat.ltb_spec (Ascii.characters text2) (Ascii.characters text1)); lia. }
  assert (Hlong : 4 <= Ascii.characters longtext).
  { unfold Patch.halfmatch_possible in Hposs.
    apply negb_true_iff, orb_false_iff in Hposs. destruct Hposs as [H4 _].
    now apply Nat.ltb_ge in H4. }
  destruct (HalfMatch_make_returns fuel longtext shorttext Hlong) as (m & Hm & Hw);
    [ rewrite Hshort; assumption | rewrite Hshort; assumption | ].
  rewrite Hm. cbn [bind]. unfold HalfMatch.not, HalfMatch.valid. now rewrite Hw.
Qed.

(** X22: for a long text of at least four characters and a short
    text of less than 2^31, with steps for the search, [HalfMatch] is
    built and has no winner, since neither of its two [CommonHalf]
    members is valid: asking it for the common text dereferences a null
    pointer, and [halfmatch] returns false with the list of Diffs as it
    was, whichever of the two texts comes first. *)
Theorem halfmatch_never_finds_a_half
        (fuel : nat) (patch : Ascii.t -> Ascii.t -> outcome Patch.diffs)
        (text1 text2 : Ascii.t) (_diffs : Patch.diffs) :
  4 <= Ascii.characters text1 ->
  Ascii.characters text2 <= Ascii.characters text1 ->
  (Z.of_nat (Ascii.characters text2) < 2 ^ 31)%Z ->
  Ascii.characters text2 < fuel ->
  (exists m : HalfMatch.t,
      HalfMatch.make fuel text1 text2 = Done m
      /\ HalfMatch.valid m = false
      /\ HalfMatch.common m = Undefined)
  /\ Patch.halfmatch fuel patch text1 text2 _diffs = Done (_diffs, false)
  /\ Patch.halfmatch fuel patch text2 text1 _diffs = Done (_diffs, false).
Proof.
  intros Hlong Hle Hsize Hfuel. split.
  - destruct (HalfMatch_make_returns fuel text1 text2 Hlong Hsize Hfuel) as (m & Hm & Hw).
    exists m. split; [ exact Hm | ].
    unfold HalfMatch.valid, HalfMatch.common, HalfMatch.winner. now rewrite Hw.
  - split; apply halfmatch_returns_false; lia.
Qed.

Lemma halfmatch_never_finds_a_half_witness :
  4 <= Ascii.characters (text "bcdefgh")
  /\ Ascii.characters (text "acdefgd") <= Ascii.characters (text "bcdefgh")
  /\ (Z.of_nat (Ascii.characters (text "acdefgd")) < 2 ^ 31)%Z
  /\ Ascii.characters (text "acdefgd") < 8
  /\ Patch.halfmatch 8 (fun _ _ => Undefined) (text "bcdefgh") (text "acdefgd") []
     = Done ([], false).
Proof.
  assert (H1 : 4 <= Ascii.characters (text "bcdefgh")) by (vm_compute; lia).
  assert (H2 : Ascii.characters (text "acdefgd") <= Ascii.characters (text "bcdefgh"))
    by (vm_compute; lia).
  assert (H3 : (Z.of_nat (Ascii.characters (text "acdefgd")) < 2 ^ 31)%Z) by reflexivity.
  assert (H4 : Ascii.characters (text "acdefgd") < 8) by (vm_compute; lia).
  repeat (split; [ assumption | ]).
  exact (proj1 (proj2 (halfmatch_never_finds_a_half
                         8 (fun _ _ => Undefined) (text "bcdefgh") (text "acdefgd") []
                         H1 H2 H3 H4))).
Defined.

(** X23: with steps for the half-match search, [compute] returns
    and never calls the constructor again.  It adds one INSERT or
    DELETE when a text is empty, the three Diffs of [overlap] when the
    shorter text occurs in the longer one, DELETE text1 and INSERT
    text2 when one text is a single character, and nothing otherwise:
    [halfmatch] returns false and [linemode] and [bisect] are empty. *)
Theorem compute_adds_an_edit_or_the_overlap
        (fuel : nat) (patch : Ascii.t -> Ascii.t -> outcome Patch.diffs)
        (text1 text2 : Ascii.t) (checklines : bool) (deadline : Deadline.t)
        (_diffs : Patch.diffs) :
  (Z.of_nat (Nat.min (Ascii.characters text1) (Ascii.characters text2)) < 2 ^ 31)%Z ->
  Nat.min (Ascii.characters text1) (Ascii.characters text2) < fuel ->
  Patch.compute fuel patch text1 text2 checklines deadline _diffs
  = Done (if Ascii.characters text1 =? 0
          then _diffs ++ [Diff.make INSERT (Ascii.buffer text2)]
          else if Ascii.characters text2 =? 0
               then _diffs ++ [Diff.make DELETE (Ascii.buffer text1)]
               else if CommonOverlap.to_bool (CommonOverlap.make text1 text2)
                    then fst (Patch.overlap text1 text2 _diffs)
                    else if (Ascii.characters text1 =? 1) || (Ascii.characters text2 =? 1)
                         then _diffs ++ [Diff.make DELETE (Ascii.buffer text1);
                                         Diff.make INSERT (Ascii.buffer text2)]
                         else _diffs).
Proof.
  intros Hsize Hfuel. unfold Patch.compute.
  destruct (Ascii.characters text1 =? 0); [ reflexivity | ].
  destruct (Ascii.characters text2 =? 0); [ reflexivity | ].
  unfold Patch.overlap.
  destruct (CommonOverlap.to_bool (CommonOverlap.make text1 text2)); [ reflexivity | ].
  destruct ((Ascii.characters text1 =? 1) || (Ascii.characters text2 =? 1)).
  - unfold StdList.emplace_back. now rewrite <- app_assoc.
  - rewrite halfmatch_returns_false by assumption.
    destruct (Deadline.to_bool deadline); cbn [bind];
      unfold Patch.linemode, Patch.bisect; destruct (_ && _); reflexivity.
Qed.

Lemma compute_adds_an_edit_or_the_overlap_witness :
  (Z.of_nat (Nat.min (Ascii.characters (text "daar")) (Ascii.characters (text "hier")))
   < 2 ^ 31)%Z
  /\ Nat.min (Ascii.characters (text "daar")) (Ascii.characters (text "hier")) < 5
  /\ Patch.compute 5 (fun _ _ => Undefined) (text "daar") (text "hier") true
                   (Deadline.make LONG_MAX 0) [diff_of EQUAL "hallo "]
     = Done [diff_of EQUAL "hallo "].
Proof.
  assert (H1 : (Z.of_nat (Nat.min (Ascii.characters (text "daar"))
                                  (Ascii.characters (text "hier"))) < 2 ^ 31)%Z)
    by reflexivity.
  assert (H2 : Nat.min (Ascii.characters (text "daar")) (Ascii.characters (text "hier")) < 5)
    by (vm_compute; lia).
  repeat (split; [ assumption | ]).
  exact (compute_adds_an_edit_or_the_overlap
           5 (fun _ _ => Undefined) (text "daar") (text "hier") true
           (Deadline.make LONG_MAX 0) [diff_of EQUAL "hallo "] H1 H2).
Defined.

(** ** The deadline of the public constructor *)

(** X24: for a timeout of [s] whole seconds (few enough for the
    [float] product to be exact) [Limits::deadline] returns the clock
    reading [clock0 + s * CLOCKS_PER_SEC]; the constructor
    [Deadline(time_t seconds)] takes that number for seconds, so the
    deadline expires [(clock0 + s * CLOCKS_PER_SEC) * CLOCKS_PER_SEC]
    ticks after its start, and [reached()] is false until then. *)
Theorem Deadline_takes_clock_ticks_for_seconds
        (limits : Limits.t) (s clock0 clock1 now : Z) :
  Limits.timeout limits = inject_Z s ->
  (0 < s <= 1000)%Z ->
  (0 <= clock0)%Z -> (0 <= clock1)%Z ->
  (clock1 + (clock0 + s * CLOCKS_PER_SEC) * CLOCKS_PER_SEC <= LONG_MAX)%Z ->
  let d := Deadline.make (Limits.deadline limits clock0) clock1 in
  Limits.deadline limits clock0 = (clock0 + s * CLOCKS_PER_SEC)%Z
  /\ Deadline.to_bool d = true
  /\ Deadline.expiration d
     = (clock1 + (clock0 + s * CLOCKS_PER_SEC) * CLOCKS_PER_SEC)%Z
  /\ Deadline.reached d now
     = ((clock1 + (clock0 + s * CLOCKS_PER_SEC) * CLOCKS_PER_SEC <=? now)
        || (now <? clock1))%Z
  /\ ((clock1 <= now < clock1 + (clock0 + s * CLOCKS_PER_SEC) * CLOCKS_PER_SEC)%Z ->
      Deadline.reached d now = false).
Proof.
  intros Htimeout Hs H0 H1 Hfit d.
  assert (Hlong : forall z : Z, (0 <= z <= LONG_MAX)%Z -> to_long z = z).
  { intros z Hz. unfold to_long, wrap_signed, LONG_MAX in *.
    change (2 ^ (64 - 1))%Z with 9223372036854775808%Z.
    change (2 ^ 64)%Z with 18446744073709551616%Z.
    change (2 ^ 63 - 1)%Z with 9223372036854775807%Z in Hz.
    Z.div_mod_to_equations. lia. }
  unfold CLOCKS_PER_SEC in *.
  assert (Hd : Limits.deadline limits clock0 = (clock0 + s * 1000000)%Z).
  { unfold Limits.deadline. rewrite Htimeout.
    unfold Qle_bool, inject_Z, Limits.truncate, CLOCKS_PER_SEC. cbn [Qnum Qden Qmult].
    destruct (Z.leb_spec (s * 1) (0 * 1)) as [Hbad | _]; [ lia | ].
    change (Z.pos (1 * 1)) with 1%Z. rewrite Z.quot_1_r.
    apply Hlong. unfold LONG_MAX in *. nia. }
  split; [ exact Hd | ].
  assert (He : Deadline.expiration d
               = (clock1 + (clock0 + s * 1000000) * 1000000)%Z).
  { unfold d, Deadline.expiration, Deadline.make, CLOCKS_PER_SEC.
    cbn [Deadline._start Deadline._max]. rewrite Hd. apply Hlong. lia. }
  split.
  { unfold d, Deadline.to_bool, Deadline.make. cbn [Deadline._max]. rewrite Hd.
    apply Z.ltb_lt. lia. }
  split; [ exact He | ].
  assert (Hr : Deadline.reached d now
               = ((clock1 + (clock0 + s * 1000000) * 1000000 <=? now)
                  || (now <? clock1))%Z).
  { unfold Deadline.reached. rewrite He.
    unfold d, Deadline.make. cbn [Deadline._start Deadline._max]. rewrite Hd.
    destruct (Z.eqb_spec (clock0 + s * 1000000) 0) as [Hbad | _]; [ lia | ].
    destruct (Z.ltb_spec clock1 (clock1 + (clock0 + s * 1000000) * 1000000))
      as [_ | Hbad]; [ reflexivity | lia ]. }
  split; [ exact Hr | ].
  intro Hnow. rewrite Hr. apply orb_false_iff. split.
  - apply Z.leb_gt. lia.
  - apply Z.ltb_ge. lia.
Qed.

Lemma Deadline_takes_clock_ticks_for_seconds_witness :
  Deadline.expiration (Deadline.make (Limits.deadline Limits.default 0) 0)
  = 1000000000000%Z
  /\ Deadline.reached (Deadline.make (Limits.deadline Limits.default 0) 0) 1000000 = false.
Proof.
  assert (Hs : (0 < 1 <= 1000)%Z) by lia.
  assert (H0 : (0 <= 0)%Z) by lia.
  assert (Hfit : (0 + (0 + 1 * CLOCKS_PER_SEC) * CLOCKS_PER_SEC <= LONG_MAX)%Z)
    by (vm_compute; discriminate).
  destruct (Deadline_takes_clock_ticks_for_seconds
              Limits.default 1 0 0 1000000 eq_refl Hs H0 H0 Hfit)
    as (_ & _ & He & _ & Hr).
  split; [ exact He | ].
  apply Hr. vm_compute. split; [ discriminate | reflexivity ].
Defined.

(** ** [optimize] *)

Section Optimize.

Import Patch StdList.

(** A loop that has returned returns the same with more steps. *)
Lemma while_more_fuel {S : Type} (cond : S -> bool) (body : S -> outcome S) (fuel : nat) :
  forall (s r : S),
    while fuel cond body s = Done r ->
    forall fuel' : nat, fuel <= fuel' -> while fuel' cond body s = Done r.
Proof.
  induction fuel as [ | fuel IH]; intros s r H fuel' Hle.
  - destruct (cond s) eqn:Hc.
    + simpl in H. rewrite Hc in H. discriminate H.
    + rewrite while_done in H by assumption. now rewrite while_done.
  - destruct (cond s) eqn:Hc.
    + destruct fuel' as [ | fuel']; [ lia | ].
      rewrite while_step in * by assumption.
      destruct (body s) as [s' | | ]; cbn [bind] in *; try discriminate H.
      apply IH; [ exact H | lia ].
    + rewrite while_done in H by assumption. now rewrite while_done.
Qed.

Lemma mergeUpdates_more_fuel (fuel fuel' : nat) (l r : diffs) :
  mergeUpdates fuel l = Done r -> fuel <= fuel' -> mergeUpdates fuel' l = Done r.
Proof.
  unfold mergeUpdates. intros H Hle.
  destruct (while fuel _ _ _) as [st | | ] eqn:Hw; cbn [bind] in H; try discriminate H.
  now rewrite (while_more_fuel _ _ _ _ _ Hw fuel' Hle).
Qed.

Lemma mergeEquals_more_fuel (fuel fuel' : nat) (l r : diffs) :
  mergeEquals fuel l = Done r -> fuel <= fuel' -> mergeEquals fuel' l = Done r.
Proof.
  unfold mergeEquals. intros H Hle.
  destruct (while fuel _ _ _) as [st | | ] eqn:Hw; cbn [bind] in H; try discriminate H.
  now rewrite (while_more_fuel _ _ _ _ _ Hw fuel' Hle).
Qed.

(** What [mergeUpdates] can have returned *)
Lemma mergeUpdates_returned (fuel : nat) (l r : diffs) :
  mergeUpdates fuel l = Done r ->
  r = l /\ match l with
           | [] => True
           | d :: _ => Operation_eqb (Diff.operation d) EQUAL = false
           end.
Proof.
  intro H. destruct l as [ | d rest].
  - unfold mergeUpdates in H. rewrite while_done in H by reflexivity.
    cbn [bind mu_diffs] in H. injection H as <-. now split.
  - destruct fuel as [ | fuel]; [ discriminate H | ].
    destruct (Operation_eqb (Diff.operation d) EQUAL) eqn:Hop.
    + rewrite mergeUpdates_equal_first in H by (now destruct (Diff.operation d)).
      discriminate H.
    + split; [ | reflexivity ].
      apply (mergeUpdates_more_fuel _ (S fuel + length (d :: rest))) in H; [ | lia ].
      rewrite mergeUpdates_keeps_edits_first in H.
      * now injection H.
      * intro Heq. rewrite Heq in Hop. discriminate Hop.
      * lia.
Qed.

(** What [mergeEquals] can have returned *)
Lemma mergeEquals_returned (fuel : nat) (l r : diffs) :
  mergeEquals fuel l = Done r -> r = merged_equals [] l.
Proof.
  intro H.
  apply (mergeEquals_more_fuel _ (fuel + length l)) in H; [ | lia ].
  rewrite mergeEquals_closed_form in H by lia. now injection H.
Qed.

(** When [mergeEquals] leaves a single Diff *)
Lemma merged_equals_all_equal (rest : diffs) :
  forall run : diffs,
    Forall (fun d => Diff.operation d = EQUAL) rest ->
    merged_equals run rest = close_run (run ++ rest).
Proof.
  induction rest as [ | d rest IH]; intros run Hrest; cbn [merged_equals].
  - now rewrite app_nil_r.
  - inversion Hrest as [ | ? ? Hd Hrest']; subst. rewrite Hd. cbn [Operation_eqb].
    rewrite IH by assumption. now rewrite <- app_assoc.
Qed.

Lemma merged_equals_nil (rest : diffs) :
  forall run : diffs, merged_equals run rest = [] -> run = [] /\ rest = [].
Proof.
  induction rest as [ | d rest IH]; intros run H; cbn [merged_equals] in H.
  - destruct run as [ | d1 [ | d2 run]]; try discriminate H. now split.
  - destruct (Operation_eqb (Diff.operation d) EQUAL).
    + apply IH in H. destruct H as [H _]. now destruct run.
    + now destruct (close_run run).
Qed.

Lemma merged_equals_single (rest : diffs) :
  forall (run : diffs) (d' : Diff.t),
    Forall (fun d => Diff.operation d = EQUAL) run ->
    merged_equals run rest = [d'] ->
    run ++ rest = [d']
    \/ (2 <= length (run ++ rest)
        /\ Forall (fun d => Diff.operation d = EQUAL) (run ++ rest)).
Proof.
  induction rest as [ | d rest IH]; intros run d' Hrun H; cbn [merged_equals] in H.
  - rewrite app_nil_r. destruct run as [ | d1 [ | d2 run]]; try discriminate H.
    + left. exact H.
    + right. split; [ cbn [length]; lia | exact Hrun ].
  - destruct (Operation_eqb (Diff.operation d) EQUAL) eqn:Hop.
    + apply IH in H.
      * now rewrite <- app_assoc in H.
      * apply Forall_app. split; [ exact Hrun | ].
        constructor; [ now destruct (Diff.operation d) | constructor ].
    + left. destruct run as [ | d1 [ | d2 run]]; cbn [close_run app] in H.
      * injection H as <- Hm. apply merged_equals_nil in Hm. now destruct Hm as [_ ->].
      * discriminate H.
      * discriminate H.
Qed.

Lemma merged_equals_single_iff (rest : diffs) (d' : Diff.t) :
  merged_equals [] rest = [d']
  <-> rest = [d']
      \/ (2 <= length rest
          /\ Forall (fun d => Diff.operation d = EQUAL) rest
          /\ d' = Diff.make_join EQUAL (list_sum (map Diff.bytes rest)) rest).
Proof.
  split.
  - intro H. destruct (merged_equals_single rest [] d' (Forall_nil _) H) as [Hone | [Hlen Hall]].
    + left. exact Hone.
    + right. cbn [app] in *. split; [ exact Hlen | ]. split; [ exact Hall | ].
      rewrite merged_equals_all_equal in H by assumption. cbn [app] in H.
      destruct rest as [ | d1 [ | d2 rest]]; cbn [length] in Hlen; try lia.
      cbn [close_run] in H. now injection H.
  - intros [-> | (Hlen & Hall & ->)].
    + cbn [merged_equals]. destruct (Operation_eqb (Diff.operation d') EQUAL); reflexivity.
    + rewrite merged_equals_all_equal by assumption. cbn [app].
      destruct rest as [ | d1 [ | d2 rest]]; cbn [length] in Hlen; try lia. reflexivity.
Qed.

(** X25: [optimize] returns exactly on the lists that start with an
    edit followed by one more Diff or by two or more EQUALs and
    nothing else.  What it returns is the pair of that edit and the
    other Diff, or the one EQUAL that joins the run; a step for each
    Diff and one more are enough, and both texts read back as before.
    No other list comes back from [optimize]. *)
Theorem optimize_returns_only_pairs (l r : diffs) :
  ((exists fuel : nat, optimize fuel l = Done r) <->
   (exists (d d' : Diff.t) (rest : diffs),
       l = d :: rest
       /\ Operation_eqb (Diff.operation d) EQUAL = false
       /\ (rest = [d']
           \/ (2 <= length rest
               /\ Forall (fun e => Diff.operation e = EQUAL) rest
               /\ d' = Diff.make_join EQUAL (list_sum (map Diff.bytes rest)) rest))
       /\ r = [d; d']))
  /\ (forall fuel : nat,
         optimize fuel l = Done r ->
         Specified.concat_without INSERT r = Specified.concat_without INSERT l
         /\ Specified.concat_without DELETE r = Specified.concat_without DELETE l
         /\ optimize (S (length l)) l = Done r).
Proof.
  assert (Hshape : forall fuel : nat,
             optimize fuel l = Done r ->
             exists (d d' : Diff.t) (rest : diffs),
               l = d :: rest
               /\ Operation_eqb (Diff.operation d) EQUAL = false
               /\ merged_equals [] rest = [d']
               /\ r = [d; d']).
  { intros fuel H. destruct fuel as [ | fuel]; [ discriminate H | ].
    cbn [optimize] in H.
    destruct (mergeUpdates (S fuel) l) as [l1 | | ] eqn:H1; cbn [bind] in H;
      try discriminate H.
    apply mergeUpdates_returned in H1. destruct H1 as [-> Hfirst].
    destruct (mergeEquals (S fuel) l) as [l2 | | ] eqn:H2; cbn [bind] in H;
      try discriminate H.
    apply mergeEquals_returned in H2. subst l2.
    destruct l as [ | d rest]; [ discriminate H | ].
    cbn [merged_equals close_run app] in H. rewrite Hfirst in H. cbn [app] in H.
    destruct (merged_equals [] rest) as [ | d' [ | d'' m]] eqn:Hm.
    - discriminate H.
    - unfold shift in H. cbn [begin_ next length Nat.ltb Nat.leb at_position bind] in H.
      rewrite while_done in H by reflexivity. cbn [bind sh_diffs changes Nat.ltb Nat.leb] in H.
      injection H as <-. now exists d, d', rest.
    - exfalso. unfold shift in H.
      cbn [begin_ next length Nat.ltb Nat.leb at_position bind] in H.
      rewrite while_spins in H; [ discriminate H | reflexivity | ].
      unfold shift_body. cbn [sh_diffs next_ current prev deref nth_error bind].
      destruct (Operation_eqb (Diff.operation d'') EQUAL); cbn [negb]; [ | reflexivity ].
      destruct (Operation_eqb (Diff.operation d') EQUAL); [ reflexivity | ].
      now rewrite Hfirst. }
  assert (Hruns : forall (d d' : Diff.t) (rest : diffs),
             l = d :: rest ->
             Operation_eqb (Diff.operation d) EQUAL = false ->
             merged_equals [] rest = [d'] ->
             r = [d; d'] ->
             optimize (S (length l)) l = Done r).
  { intros d d' rest -> Hfirst Hm ->. cbn [optimize].
    rewrite mergeUpdates_keeps_edits_first;
      [ | intro Heq; rewrite Heq in Hfirst; discriminate Hfirst | lia ].
    cbn [bind]. rewrite mergeEquals_closed_form by lia.
    cbn [merged_equals close_run app bind]. rewrite Hfirst, Hm. cbn [app].
    unfold shift. cbn [begin_ next length Nat.ltb Nat.leb at_position bind].
    now rewrite while_done by reflexivity. }
  split.
  - split.
    + intros [fuel H]. destruct (Hshape fuel H) as (d & d' & rest & Hl & Hfirst & Hm & Hr).
      exists d, d', rest. now rewrite <- merged_equals_single_iff.
    + intros (d & d' & rest & Hl & Hfirst & Hm & Hr).
      exists (S (length l)). apply merged_equals_single_iff in Hm.
      exact (Hruns d d' rest Hl Hfirst Hm Hr).
  - intros fuel H. destruct (Hshape fuel H) as (d & d' & rest & Hl & Hfirst & Hm & Hr).
    assert (Hsame : forall op : Operation,
               Specified.concat_without op r = Specified.concat_without op l).
    { intro op. subst l r.
      change [d; d'] with ([d] ++ [d']). change (d :: rest) with ([d] ++ rest).
      rewrite !concat_without_app. f_equal.
      rewrite <- Hm. now rewrite merged_equals_concat by constructor. }
    split; [ apply Hsame | ].
    split; [ apply Hsame | ].
    exact (Hruns d d' rest Hl Hfirst Hm Hr).
Qed.

Lemma optimize_returns_only_pairs_witness :
  optimize 4 [diff_of DELETE "a"; diff_of EQUAL "b"; diff_of EQUAL "c"]
  = Done [diff_of DELETE "a";
          Diff.make_join EQUAL 2 [diff_of EQUAL "b"; diff_of EQUAL "c"]]
  /\ Diff.data (Diff.make_join EQUAL 2 [diff_of EQUAL "b"; diff_of EQUAL "c"])
     = bytes_of "bc".
Proof.
  split; [ | reflexivity ].
  apply (proj2 (proj2 (proj2 (optimize_returns_only_pairs
                                [diff_of DELETE "a"; diff_of EQUAL "b"; diff_of EQUAL "c"]
                                [diff_of DELETE "a";
                                 Diff.make_join EQUAL 2
                                   [diff_of EQUAL "b"; diff_of EQUAL "c"]]) 4 eq_refl))).
Defined.

End Optimize.
